(** * socket-adventure: a shallow embedding of [server.py]

    The [Server] class of [server.py] is a single-client, line-oriented
    adventure game server.  This file embeds its methods as functions of a
    small state-and-exception monad over the [Server] record and proves the
    behaviour of the command router, of the input reader and of the greeting.

    Conventions.
    - A Python [str] is the list of its Unicode code points ([str := list N]);
      [lit] turns an ASCII literal of this file into such a list.
    - A Python [bytes] is a [list byte].
    - A Python [dict] is a stdpp [gmap]; a failing subscript raises [KeyError].
    - The client socket is the list of the byte strings that the successive
      calls of [recv] return, followed by the trace of the calls already made.
      When the list is exhausted the peer has nothing more to send and
      [get_input] never returns (outcome [Hangs]).
    - The sockets are those of a connection that is established and works:
      the [OSError]s of [bind], [accept], [recv] and [sendall] are outside
      the model, and no statement below is about them. *)

From Stdlib Require Import ZArith NArith List Strings.String Strings.Ascii Strings.Byte Bool Lia.
From stdpp Require Import base option list gmap.
Import ListNotations.

Local Open Scope list_scope.

(* ===================================================================== *)
(** ** Python strings and bytes *)
(* ===================================================================== *)

Notation str := (list N) (only parsing).
Notation bytes := (list byte) (only parsing).

(** An ASCII literal as a Python [str]. *)
Definition lit (s : string) : str :=
  map N_of_ascii (list_ascii_of_string s).

(** An ASCII literal as a Python [bytes]. *)
Definition blit (s : string) : bytes :=
  list_byte_of_string s.

(** The characters ['\n'] and [' ']. *)
Definition nl : N := 10%N.
Definition sp : N := 32%N.

(** [ch.isspace()] for one code point, the table of CPython's
    [_PyUnicode_IsWhitespace]; [str.strip()] removes exactly these. *)
Definition isspace (c : N) : bool :=
  ((0x09 <=? c) && (c <=? 0x0D))%N
  || ((0x1C <=? c) && (c <=? 0x20))%N
  || (c =? 0x85)%N || (c =? 0xA0)%N || (c =? 0x1680)%N
  || ((0x2000 <=? c) && (c <=? 0x200A))%N
  || (c =? 0x2028)%N || (c =? 0x2029)%N || (c =? 0x202F)%N
  || (c =? 0x205F)%N || (c =? 0x3000)%N.

(** [s.lstrip()] *)
Fixpoint lstrip (s : str) : str :=
  match s with
  | [] => []
  | c :: t => if isspace c then lstrip t else s
  end.

(** [s.rstrip()] *)
Fixpoint rstrip (s : str) : str :=
  match s with
  | [] => []
  | c :: t =>
      match rstrip t with
      | [] => if isspace c then [] else [c]
      | t' => c :: t'
      end
  end.

(** [s.strip()]: whitespace is removed at both ends. *)
Definition strip (s : str) : str := rstrip (lstrip s).

(** [s.split(sep)] for a one-character separator: the string is cut at every
    occurrence of [sep]; the result always has at least one element. *)
Fixpoint split (sep : N) (s : str) : list str :=
  match s with
  | [] => [[]]
  | c :: t =>
      if (c =? sep)%N then [] :: split sep t
      else match split sep t with
           | w :: ws => (c :: w) :: ws
           | [] => [[c]]
           end
  end.

(** [sep.join(l)] *)
Fixpoint join (sep : str) (l : list str) : str :=
  match l with
  | [] => []
  | w :: ws =>
      match ws with
      | [] => w
      | _ :: _ => w ++ sep ++ join sep ws
      end
  end.

(** ['\n' in s] and friends: membership of one character. *)
Definition contains (c : N) (s : str) : bool :=
  existsb (N.eqb c) s.

(* --------------------------------------------------------------------- *)
(** *** UTF-8 *)
(* --------------------------------------------------------------------- *)

Definition byte_of_N (n : N) : byte :=
  match Byte.of_N (n mod 256) with
  | Some b => b
  | None => x00
  end.

(** The continuation byte carrying bits [6k .. 6k+5] of [c]. *)
Definition cont_byte (c : N) (k : N) : byte :=
  byte_of_N (N.lor 0x80 (N.land (N.shiftr c (6 * k)) 0x3F)).

(** The UTF-8 encoding of one code point; [None] for a surrogate (Python
    raises [UnicodeEncodeError]) and for a value that is no code point. *)
Definition utf8_encode_char (c : N) : option bytes :=
  if (c <? 0x80)%N then Some [byte_of_N c]
  else if (c <? 0x800)%N then
    Some [byte_of_N (N.lor 0xC0 (N.shiftr c 6)); cont_byte c 0]
  else if ((0xD800 <=? c) && (c <=? 0xDFFF))%N then None
  else if (c <? 0x10000)%N then
    Some [byte_of_N (N.lor 0xE0 (N.shiftr c 12)); cont_byte c 1; cont_byte c 0]
  else if (c <=? 0x10FFFF)%N then
    Some [byte_of_N (N.lor 0xF0 (N.shiftr c 18)); cont_byte c 2; cont_byte c 1;
          cont_byte c 0]
  else None.

(** [s.encode('utf8')] *)
Fixpoint utf8_encode (s : str) : option bytes :=
  match s with
  | [] => Some []
  | c :: t =>
      match utf8_encode_char c, utf8_encode t with
      | Some b, Some bs => Some (b ++ bs)
      | _, _ => None
      end
  end.

Definition is_cont (b : byte) : bool :=
  (N.land (Byte.to_N b) 0xC0 =? 0x80)%N.

Definition low6 (b : byte) : N := N.land (Byte.to_N b) 0x3F.

(** [b.decode('utf8')], the strict decoder: [None] (Python raises
    [UnicodeDecodeError]) on a stray or missing continuation byte, on an
    overlong form, on a surrogate, above U+10FFFF and on a sequence that the
    end of the data truncates. *)
Fixpoint utf8_decode (bs : bytes) : option str :=
  match bs with
  | [] => Some []
  | b0 :: r0 =>
      let n0 := Byte.to_N b0 in
      if (n0 <? 0x80)%N then cons n0 <$> utf8_decode r0
      else if (n0 <? 0xC0)%N then None
      else if (n0 <? 0xE0)%N then
        match r0 with
        | b1 :: r1 =>
            let c := N.lor (N.shiftl (N.land n0 0x1F) 6) (low6 b1) in
            if is_cont b1 && (0x80 <=? c)%N
            then cons c <$> utf8_decode r1 else None
        | _ => None
        end
      else if (n0 <? 0xF0)%N then
        match r0 with
        | b1 :: b2 :: r2 =>
            let c := N.lor (N.shiftl (N.land n0 0x0F) 12)
                       (N.lor (N.shiftl (low6 b1) 6) (low6 b2)) in
            if is_cont b1 && is_cont b2 && (0x800 <=? c)%N
               && negb ((0xD800 <=? c) && (c <=? 0xDFFF))%N
            then cons c <$> utf8_decode r2 else None
        | _ => None
        end
      else if (n0 <? 0xF8)%N then
        match r0 with
        | b1 :: b2 :: b3 :: r3 =>
            let c := N.lor (N.shiftl (N.land n0 0x07) 18)
                       (N.lor (N.shiftl (low6 b1) 12)
                          (N.lor (N.shiftl (low6 b2) 6) (low6 b3))) in
            if is_cont b1 && is_cont b2 && is_cont b3
               && (0x10000 <=? c)%N && (c <=? 0x10FFFF)%N
            then cons c <$> utf8_decode r3 else None
        | _ => None
        end
      else None
  end.

(* ===================================================================== *)
(** ** Outcomes, exceptions and the monad of the methods *)
(* ===================================================================== *)

(** The Python exceptions that the methods can raise. *)
Inductive exn : Type :=
  | KeyError            (* a dict subscript with a missing key *)
  | IndexError          (* [pop] from an empty list *)
  | AttributeError      (* a method of [None], the socket before [connect] *)
  | UnicodeDecodeError
  | UnicodeEncodeError.

(** How a call ends, and the state it leaves.  [Hangs]: the call never
    returns.  [OutOfFuel]: the bound that this file puts on a loop was too
    small; [get_input_fuel] and [serve_fuel] show that the bounds used by
    [get_input] and [serve] never are. *)
Inductive outcome (St A : Type) : Type :=
  | Returns (a : A) (s : St)
  | Raises (e : exn) (s : St)
  | Hangs (s : St)
  | OutOfFuel (s : St).

Arguments Returns {St A} a s.
Arguments Raises {St A} e s.
Arguments Hangs {St A} s.
Arguments OutOfFuel {St A} s.

(** The state in which a call ends, however it ends. *)
Definition final {St A} (o : outcome St A) : St :=
  match o with
  | Returns _ s | Raises _ s | Hangs s | OutOfFuel s => s
  end.

(* --------------------------------------------------------------------- *)
(** *** The sockets *)
(* --------------------------------------------------------------------- *)

(** What happens on the client connection, in order. *)
Inductive event : Type :=
  | Recv (b : bytes)    (* [recv] returned [b] *)
  | Send (b : bytes)    (* [sendall(b)] *)
  | Close.              (* [close()] *)

(** The connection that [accept] returns: the results of the calls of
    [recv] still to come, and the trace of the calls made so far. *)
Record Connection : Type := mkConnection {
  pending : list bytes;
  trace : list event
}.

(** The listening socket. *)
Inductive Socket : Type :=
  | Listening (address : string * Z)
  | Closed.

(* --------------------------------------------------------------------- *)
(** *** The instance variables of [Server] *)
(* --------------------------------------------------------------------- *)

Record Server : Type := mkServer {
  input_buffer : str;
  output_buffer : str;
  done : bool;
  socket : option Socket;
  client_connection : option Connection;
  port : Z;
  room : Z
}.

Definition set_input_buffer (v : str) (s : Server) : Server :=
  mkServer v (output_buffer s) (done s) (socket s) (client_connection s)
    (port s) (room s).

Definition set_output_buffer (v : str) (s : Server) : Server :=
  mkServer (input_buffer s) v (done s) (socket s) (client_connection s)
    (port s) (room s).

Definition set_done (v : bool) (s : Server) : Server :=
  mkServer (input_buffer s) (output_buffer s) v (socket s)
    (client_connection s) (port s) (room s).

Definition set_socket (v : option Socket) (s : Server) : Server :=
  mkServer (input_buffer s) (output_buffer s) (done s) v
    (client_connection s) (port s) (room s).

Definition set_client_connection (v : option Connection) (s : Server) : Server :=
  mkServer (input_buffer s) (output_buffer s) (done s) (socket s) v
    (port s) (room s).

Definition set_room (v : Z) (s : Server) : Server :=
  mkServer (input_buffer s) (output_buffer s) (done s) (socket s)
    (client_connection s) (port s) v.

(** A method: from the instance to an outcome and the instance it leaves. *)
Definition M (A : Type) : Type := Server -> outcome Server A.

Definition ret {A} (a : A) : M A := fun s => Returns a s.

Definition bind {A B} (m : M A) (k : A -> M B) : M B :=
  fun s =>
    match m s with
    | Returns a s' => k a s'
    | Raises e s' => Raises e s'
    | Hangs s' => Hangs s'
    | OutOfFuel s' => OutOfFuel s'
    end.

Definition raise {A} (e : exn) : M A := fun s => Raises e s.

(** An assignment to instance variables. *)
Definition assign (f : Server -> Server) : M unit := fun s => Returns tt (f s).

(** Reading [self]. *)
Definition self : M Server := fun s => Returns s s.

(** A value or the exception of its absence. *)
Definition or_raise {A} (e : exn) (o : option A) : M A :=
  match o with
  | Some a => ret a
  | None => raise e
  end.

Declare Scope py_scope.
Delimit Scope py_scope with py.
Notation "x <- m ;; k" := (bind m (fun x => k))
  (at level 100, m at next level, k at level 200, right associativity)
  : py_scope.
Notation "m ;; k" := (bind m (fun _ => k))
  (at level 100, k at level 200, right associativity) : py_scope.
Local Open Scope py_scope.

(* ===================================================================== *)
(** ** The class [Server] *)
(* ===================================================================== *)

Module Server.

Definition game_name : str := lit "Realms of Venture".

Definition room_dict : gmap Z (list N) :=
  <[0%Z := lit "You are in the room with the white wallpaper"]>
  (<[1%Z := lit "You are in the room with the green wallpaper"]>
  (<[2%Z := lit "You are in the room with the brown wallpaper"]>
  (<[3%Z := lit "You are in the room with the mauve wallpaper"]> ∅))).

Definition BYTES : nat := 16.

(** [__init__(self, port=50000)] *)
Definition __init__ (port : Z) : Server :=
  {| input_buffer := [];
     output_buffer := [];
     done := false;
     socket := None;
     client_connection := None;
     port := port;
     room := 0 |}.

(** [connect]: the listening socket is bound to the port on the loopback
    address and [accept] returns the connection of the client, whose future
    [recv] results are [incoming].  This is [connect] when it succeeds: the
    errors of [bind] and [accept] (a port out of range or in use) are not
    modelled. *)
Definition connect (incoming : list bytes) : M unit :=
  s <- self ;;
  assign (set_socket (Some (Listening ("127.0.0.1"%string, port s)))) ;;
  assign (set_client_connection (Some (mkConnection incoming []))).

(** [room_description]: the subscript [self.room_dict[room_number]]. *)
Definition room_description (room_number : Z) : M (list N) :=
  or_raise KeyError (room_dict !! room_number).

(** [greet] *)
Definition greet : M unit :=
  s <- self ;;
  d <- room_description (room s) ;;
  assign (set_output_buffer (lit "Welcome to " ++ game_name ++ lit "! " ++ d)).

(** [self.client_connection.recv(self.BYTES)]: the next result, which the
    socket keeps to [BYTES] bytes at most; nothing here depends on that
    size.  None left means that the call blocks for ever, or returns [b'']
    for ever after the peer has closed, and the loop around it never ends.
    The connection is one that works: [OSError], which [recv] raises on a
    connection that the peer has reset, is not modelled. *)
Definition recv : M (list byte) :=
  s <- self ;;
  c <- or_raise AttributeError (client_connection s) ;;
  match pending c with
  | [] => fun s => Hangs s
  | b :: rest =>
      assign (set_client_connection
                (Some (mkConnection rest (trace c ++ [Recv b])))) ;;
      ret b
  end.

(** The loop of [get_input]:
    [while '\n' not in received: received += recv(BYTES).decode('utf8')]. *)
Fixpoint get_input_loop (fuel : nat) (received : list N) : M (list N) :=
  if contains nl received then ret received
  else match fuel with
       | O => fun s => OutOfFuel s
       | S fuel' =>
           b <- recv ;;
           t <- or_raise UnicodeDecodeError (utf8_decode b) ;;
           get_input_loop fuel' (received ++ t)
       end.

(** The number of [recv] results still to come. *)
Definition pending_count (s : Server) : nat :=
  match client_connection s with
  | Some c => length (pending c)
  | None => 0
  end.

(** [get_input] *)
Definition get_input : M unit :=
  s <- self ;;
  received <- get_input_loop (S (pending_count s)) [] ;;
  assign (set_input_buffer (strip received)).

Definition valid_moves : gmap (Z * list N) Z :=
  <[(0%Z, lit "north") := 3%Z]>
  (<[(0%Z, lit "west") := 1%Z]>
  (<[(0%Z, lit "east") := 2%Z]>
  (<[(1%Z, lit "east") := 0%Z]>
  (<[(2%Z, lit "west") := 0%Z]>
  (<[(3%Z, lit "south") := 0%Z]> ∅))))).

(** [move] *)
Definition move (argument : list N) : M unit :=
  s <- self ;;
  match valid_moves !! (room s, argument) with
  | Some new_room =>
      assign (set_room new_room) ;;
      s <- self ;;
      d <- room_description (room s) ;;
      assign (set_output_buffer d)
  | None =>
      assign (set_output_buffer (lit "Not a valid move! Please try again."))
  end.

(** [say] *)
Definition say (argument : list N) : M unit :=
  assign (set_output_buffer (lit "You say, '" ++ argument ++ lit "'")).

(** [quit] *)
Definition quit (argument : list N) : M unit :=
  assign (set_done true) ;;
  assign (set_output_buffer (lit "Goodbye!")).

(** The dispatch table of [route]; its values are the bound methods. *)
Definition routing_dict : gmap (list N) (list N -> M unit) :=
  <[lit "quit" := quit]>
  (<[lit "move" := move]>
  (<[lit "say" := say]> ∅)).

(** [received.pop(0)]: the first element and the rest of the list. *)
Definition pop0 (l : list (list N)) : M (list N * list (list N)) :=
  match l with
  | [] => raise IndexError
  | w :: ws => ret (w, ws)
  end.

(** The last statement of [route]:
    [if command in routing_dict: routing_dict[command](arguments)]
    [else: self.output_buffer = 'Not a valid command.'] *)
Definition dispatch (command arguments : list N) : M unit :=
  match routing_dict !! command with
  | Some handler => handler arguments
  | None => assign (set_output_buffer (lit "Not a valid command."))
  end.

(** [route] *)
Definition route : M unit :=
  s <- self ;;
  p <- pop0 (split sp (input_buffer s)) ;;
  let command := fst p in
  let arguments := join [sp] (snd p) in
  dispatch command arguments.

(** [self.client_connection.sendall(b)], on a connection that works:
    [OSError], which [sendall] raises when the peer has closed or reset the
    connection, is not modelled. *)
Definition sendall (b : list byte) : M unit :=
  s <- self ;;
  c <- or_raise AttributeError (client_connection s) ;;
  assign (set_client_connection
            (Some (mkConnection (pending c) (trace c ++ [Send b])))).

(** [push_output] *)
Definition push_output : M unit :=
  s <- self ;;
  output_string <-
    or_raise UnicodeEncodeError
      (utf8_encode (lit "OK! " ++ output_buffer s ++ [nl])) ;;
  sendall output_string.

(** [self.client_connection.close()] *)
Definition close_connection : M unit :=
  s <- self ;;
  c <- or_raise AttributeError (client_connection s) ;;
  assign (set_client_connection
            (Some (mkConnection (pending c) (trace c ++ [Close])))).

(** [self.socket.close()] *)
Definition close_socket : M unit :=
  s <- self ;;
  _ <- or_raise AttributeError (socket s) ;;
  assign (set_socket (Some Closed)).

(** The loop of [serve]:
    [while not self.done: get_input(); route(); push_output()]. *)
Fixpoint serve_loop (fuel : nat) : M unit :=
  s <- self ;;
  if done s then ret tt
  else match fuel with
       | O => fun s => OutOfFuel s
       | S fuel' =>
           get_input ;;
           route ;;
           push_output ;;
           serve_loop fuel'
       end.

(** [serve], for a client whose [recv] results will be [incoming].  Every
    turn of the loop takes at least one of them, so that their number bounds
    the turns. *)
Definition serve (incoming : list bytes) : M unit :=
  connect incoming ;;
  greet ;;
  push_output ;;
  serve_loop (S (length incoming)) ;;
  close_connection ;;
  close_socket.

(** One turn of the loop of [serve] on the text [line] once [get_input] has
    received it: [input_buffer] is [line.strip()], then [route] runs. *)
Definition handle_received (line : list N) : M unit :=
  assign (set_input_buffer (strip line)) ;;
  route.

(** [route] on the input line [line]: what [route] does when [get_input]
    has left [line] in [input_buffer]. *)
Definition handle_line (line : list N) : M unit :=
  assign (set_input_buffer line) ;;
  route.

(** A session of input lines handled one after the other. *)
Fixpoint handle_lines (lines : list (list N)) : M unit :=
  match lines with
  | [] => ret tt
  | line :: rest => handle_line line ;; handle_lines rest
  end.

(** The parse step of a turn: [strip] in [get_input], then [split], [pop]
    and [join] in [route]; the command and its argument. *)
Definition parse (received : list N) : list N * list N :=
  match split sp (strip received) with
  | [] => ([], [])
  | command :: rest => (command, join [sp] rest)
  end.

End Server.

(* ===================================================================== *)
(** ** Observations of a state *)
(* ===================================================================== *)

(** The trace of the client connection, empty before [connect]. *)
Definition trace_of (s : Server) : list event :=
  match client_connection s with
  | Some c => trace c
  | None => []
  end.

(** The [recv] results that the client connection still holds. *)
Definition pending_of (s : Server) : list (list byte) :=
  match client_connection s with
  | Some c => pending c
  | None => []
  end.

(** The first message on the wire: the welcome, framed by [push_output]. *)
Definition greeting : list byte :=
  blit "OK! Welcome to Realms of Venture! You are in the room with the white wallpaper"
  ++ [x0a].

(** A trace that is empty or starts with a [recv]. *)
Definition starts_with_recv (t : list event) : Prop :=
  match t with
  | [] => True
  | Recv _ :: _ => True
  | _ :: _ => False
  end.

(** What a command can change: the reply, [done] from [False] to [True],
    and [room] within the rooms that have a description. *)
Definition router_step (s s' : Server) : Prop :=
  input_buffer s' = input_buffer s /\
  socket s' = socket s /\
  client_connection s' = client_connection s /\
  port s' = port s /\
  (done s = true -> done s' = true) /\
  ((0 <= room s <= 3)%Z -> (0 <= room s' <= 3)%Z).

(* ===================================================================== *)
(** ** The parse step in the words of the specification *)
(* ===================================================================== *)

Module Spec.

(** The characters before the first whitespace character. *)
Fixpoint before_whitespace (s : list N) : list N :=
  match s with
  | [] => []
  | c :: t => if isspace c then [] else c :: before_whitespace t
  end.

(** The rest, from the first whitespace character on. *)
Fixpoint from_whitespace (s : list N) : list N :=
  match s with
  | [] => []
  | c :: t => if isspace c then s else from_whitespace t
  end.

(** "Trim trailing whitespace/newline from line.  Split on the first
    whitespace run into command (everything before the first space) and
    argument (the remainder, verbatim)": leading whitespace stays, and the
    run of whitespace after the command is the separator. *)
Definition parse (line : list N) : list N * list N :=
  let t := rstrip line in
  (before_whitespace t, lstrip (from_whitespace t)).

End Spec.

(* ===================================================================== *)
(** ** Notions for the further properties *)
(* ===================================================================== *)

(** The direction back: north and south, east and west. *)
Definition opposite (d : list N) : list N :=
  if decide (d = lit "north") then lit "south"
  else if decide (d = lit "south") then lit "north"
  else if decide (d = lit "east") then lit "west"
  else if decide (d = lit "west") then lit "east"
  else d.

(** The code points that [encode('utf8')] accepts: up to U+10FFFF, the
    surrogates apart. *)
Definition encodable (c : N) : bool :=
  (c <=? 0x10FFFF)%N && negb ((0xD800 <=? c) && (c <=? 0xDFFF))%N.

(** A trace made of turns: one or more [recv], then one [sendall]. *)
Inductive turns : list event -> Prop :=
  | turns_nil : turns []
  | turns_cons (taken : list (list byte)) (reply : list byte)
      (rest : list event) :
      taken <> [] -> turns rest ->
      turns (map Recv taken ++ Send reply :: rest).

(* ===================================================================== *)
(** ** Strings: [split], [join] and [strip] *)
(* ===================================================================== *)

Import Server.

Example strip_both_ends :
  strip (lit "  say hi " ++ [nl]) = lit "say hi".
Proof. reflexivity. Qed.

Example split_keeps_empty_words :
  split sp (lit "say  a b") = [lit "say"; []; lit "a"; lit "b"].
Proof. reflexivity. Qed.

Example join_after_split :
  join [sp] (split sp (lit "a  b ")) = lit "a  b ".
Proof. reflexivity. Qed.

Example utf8_two_bytes :
  utf8_decode [xc3; xa9] = Some [0xE9%N] /\
  utf8_encode [0xE9%N] = Some [xc3; xa9].
Proof. split; reflexivity. Qed.

Example utf8_truncated : utf8_decode [xc3] = None.
Proof. reflexivity. Qed.

Example utf8_ascii :
  utf8_decode (blit "move north") = Some (lit "move north").
Proof. reflexivity. Qed.

Lemma contains_cons c x s :
  contains c (x :: s) = (c =? x)%N || contains c s.
Proof. reflexivity. Qed.

Lemma contains_app c s t :
  contains c (s ++ t) = contains c s || contains c t.
Proof. apply existsb_app. Qed.

Lemma split_cons sep c t :
  split sep (c :: t) =
  if (c =? sep)%N then [] :: split sep t
  else match split sep t with
       | w :: ws => (c :: w) :: ws
       | [] => [[c]]
       end.
Proof. reflexivity. Qed.

(** [split] never returns the empty list: [pop(0)] in [route] is safe. *)
Lemma split_not_nil sep s : split sep s <> [].
Proof.
  destruct s as [|c t]; [easy|]. rewrite split_cons.
  destruct (c =? sep)%N; [easy|]. destruct (split sep t); easy.
Qed.

(** Joining with the separator undoes the split. *)
Lemma join_split s : join [sp] (split sp s) = s.
Proof.
  induction s as [|c t IH]; [reflexivity|]. rewrite split_cons.
  pose proof (split_not_nil sp t) as Hne.
  destruct (split sp t) as [|w ws]; [easy|].
  destruct (N.eqb_spec c sp) as [->|_].
  - change (join [sp] ([] :: w :: ws)) with (sp :: join [sp] (w :: ws)).
    now rewrite IH.
  - rewrite <- IH. destruct ws; reflexivity.
Qed.

(** The first word of a split is what precedes the first space. *)
Lemma split_word w t :
  contains sp w = false -> split sp (w ++ sp :: t) = w :: split sp t.
Proof.
  induction w as [|c w IH]; intros H; [reflexivity|].
  rewrite contains_cons in H. apply orb_false_elim in H as [Hc Hw].
  rewrite N.eqb_sym in Hc.
  rewrite <- app_comm_cons, split_cons, Hc, (IH Hw). reflexivity.
Qed.

Lemma split_bare w : contains sp w = false -> split sp w = [w].
Proof.
  induction w as [|c w IH]; intros H; [reflexivity|].
  rewrite contains_cons in H. apply orb_false_elim in H as [Hc Hw].
  rewrite N.eqb_sym in Hc. rewrite split_cons, Hc, (IH Hw). reflexivity.
Qed.

Lemma rstrip_cons c t :
  rstrip (c :: t) =
  match rstrip t with
  | [] => if isspace c then [] else [c]
  | t' => c :: t'
  end.
Proof. reflexivity. Qed.

Lemma rstrip_cons_nonspace c t :
  isspace c = false -> rstrip (c :: t) = c :: rstrip t.
Proof. intros H. rewrite rstrip_cons, H. destruct (rstrip t); reflexivity. Qed.

Lemma rstrip_cons_space c t :
  isspace c = true ->
  rstrip (c :: t) = match rstrip t with [] => [] | t' => c :: t' end.
Proof. intros H. rewrite rstrip_cons, H. reflexivity. Qed.

(** A word without whitespace in front of an argument survives [strip];
    of the argument, the trailing whitespace goes. *)
Lemma rstrip_word w t :
  forallb (fun c => negb (isspace c)) w = true ->
  rstrip (w ++ t) = w ++ rstrip t.
Proof.
  induction w as [|c w IH]; intros H; [reflexivity|].
  cbn [forallb] in H. apply andb_prop in H as [Hc Hw].
  apply negb_true_iff in Hc.
  rewrite <- !app_comm_cons, (rstrip_cons_nonspace _ _ Hc), (IH Hw).
  reflexivity.
Qed.

(** [strip] on a line that starts with a command word [w] (no whitespace in
    it, not empty) and a space: either the argument is all whitespace and
    the word alone remains, or the space and the trimmed argument follow. *)
Lemma strip_word_space w t :
  w <> [] ->
  forallb (fun c => negb (isspace c)) w = true ->
  strip (w ++ sp :: t) =
  match rstrip t with
  | [] => w
  | t' => w ++ sp :: t'
  end.
Proof.
  intros Hne Hw. unfold strip.
  assert (lstrip (w ++ sp :: t) = w ++ sp :: t) as ->.
  { destruct w as [|c w]; [easy|]. cbn [forallb] in Hw.
    apply andb_prop in Hw as [Hc _]. apply negb_true_iff in Hc.
    rewrite <- app_comm_cons. cbn [lstrip]. now rewrite Hc. }
  rewrite (rstrip_word _ _ Hw), rstrip_cons_space by reflexivity.
  destruct (rstrip t); [now rewrite app_nil_r | reflexivity].
Qed.

(* ===================================================================== *)
(** ** The tables *)
(* ===================================================================== *)

(** The legal moves, one by one. *)
Lemma valid_moves_Some r d r' :
  valid_moves !! (r, d) = Some r' ->
  (r, d, r') ∈ [ (0%Z, lit "north", 3%Z); (0%Z, lit "west", 1%Z);
                 (0%Z, lit "east", 2%Z); (1%Z, lit "east", 0%Z);
                 (2%Z, lit "west", 0%Z); (3%Z, lit "south", 0%Z) ].
Proof.
  intros H. unfold valid_moves in H.
  repeat (apply lookup_insert_Some in H as [[[= <- <-] <-] | [_ H]];
          [rewrite !elem_of_cons; tauto|]).
  now rewrite lookup_empty in H.
Qed.

(** Every destination of a move has a description. *)
Lemma valid_moves_described r d r' :
  valid_moves !! (r, d) = Some r' -> is_Some (room_dict !! r').
Proof.
  intros H. apply valid_moves_Some in H.
  rewrite !elem_of_cons, elem_of_nil in H.
  repeat (destruct H as [[= -> -> ->] | H]; [eexists; reflexivity|]).
  destruct H.
Qed.

(** The keys of [room_dict] are the rooms 0, 1, 2 and 3. *)
Lemma room_dict_dom (r : Z) :
  is_Some (room_dict !! r) <-> (0 <= r <= 3)%Z.
Proof.
  split.
  - intros [d H]. unfold room_dict in H.
    repeat (apply lookup_insert_Some in H as [[<- _] | [_ H]]; [lia|]).
    now rewrite lookup_empty in H.
  - intros H.
    assert (r = 0 \/ r = 1 \/ r = 2 \/ r = 3)%Z as [->|[->|[->| ->]]] by lia;
      eexists; reflexivity.
Qed.

Lemma routing_dict_quit : routing_dict !! lit "quit" = Some quit.
Proof. reflexivity. Qed.

Lemma routing_dict_move : routing_dict !! lit "move" = Some move.
Proof. reflexivity. Qed.

Lemma routing_dict_say : routing_dict !! lit "say" = Some say.
Proof. reflexivity. Qed.

(** The commands are [quit], [move] and [say], and no other word. *)
Lemma routing_dict_Some command handler :
  routing_dict !! command = Some handler ->
  (command = lit "quit" /\ handler = quit) \/
  (command = lit "move" /\ handler = move) \/
  (command = lit "say" /\ handler = say).
Proof.
  intros H. unfold routing_dict in H.
  repeat (apply lookup_insert_Some in H as [[<- <-] | [_ H]]; [tauto|]).
  now rewrite lookup_empty in H.
Qed.

(* ===================================================================== *)
(** ** The router *)
(* ===================================================================== *)

(** [route] cuts the input line at its first space. *)
Lemma route_word_space (s : Server) (command arguments : list N) :
  contains sp command = false ->
  input_buffer s = command ++ sp :: arguments ->
  route s = dispatch command arguments s.
Proof.
  intros Hc Hin. unfold route, bind, self. rewrite Hin, (split_word _ _ Hc).
  cbn [pop0 ret fst snd]. now rewrite join_split.
Qed.

(** An input line without a space is a command with an empty argument. *)
Lemma route_bare (s : Server) (command : list N) :
  contains sp command = false ->
  input_buffer s = command ->
  route s = dispatch command [] s.
Proof.
  intros Hc Hin. unfold route, bind, self. rewrite Hin, (split_bare _ Hc).
  reflexivity.
Qed.

Lemma handle_line_word_space (s : Server) (command arguments : list N) :
  contains sp command = false ->
  handle_line (command ++ sp :: arguments) s =
  dispatch command arguments (set_input_buffer (command ++ sp :: arguments) s).
Proof.
  intros Hc. unfold handle_line, bind, assign.
  now apply route_word_space.
Qed.

Lemma handle_line_bare (s : Server) (command : list N) :
  contains sp command = false ->
  handle_line command s = dispatch command [] (set_input_buffer command s).
Proof.
  intros Hc. unfold handle_line, bind, assign. now apply route_bare.
Qed.

(** [move] with a legal direction. *)
Lemma move_legal (s : Server) (d : list N) (r' : Z) :
  valid_moves !! (room s, d) = Some r' ->
  exists descr, room_dict !! r' = Some descr /\
    move d s = Returns tt (set_output_buffer descr (set_room r' s)).
Proof.
  intros H. destruct (valid_moves_described _ _ _ H) as [descr Hd].
  exists descr. split; [exact Hd|].
  unfold move, bind, self. rewrite H.
  unfold assign, room_description. cbn [room set_room]. now rewrite Hd.
Qed.

(** [move] with any other argument. *)
Lemma move_illegal (s : Server) (d : list N) :
  valid_moves !! (room s, d) = None ->
  move d s =
  Returns tt (set_output_buffer (lit "Not a valid move! Please try again.") s).
Proof. intros H. unfold move, bind, self. now rewrite H. Qed.

Lemma dispatch_move (s : Server) (d : list N) :
  dispatch (lit "move") d s = move d s.
Proof. reflexivity. Qed.

Lemma dispatch_say (s : Server) (a : list N) :
  dispatch (lit "say") a s = say a s.
Proof. reflexivity. Qed.

Lemma dispatch_quit (s : Server) (a : list N) :
  dispatch (lit "quit") a s = quit a s.
Proof. reflexivity. Qed.

Lemma handle_received_strip (line : list N) (s : Server) :
  handle_received line s = handle_line (strip line) s.
Proof. reflexivity. Qed.

(* ===================================================================== *)
(** ** Moving *)
(* ===================================================================== *)

(** C1.  For every pair of a room and a direction that the table
    [valid_moves] maps to a destination, handling the input line
    ["move " + direction] in that room sets [room] to the destination and
    puts the description of the destination in the reply, and nothing else
    changes.  The trimming of [get_input] leaves such a line as it is. *)
Theorem move_in_table (s : Server) (d : list N) (r' : Z) :
  valid_moves !! (room s, d) = Some r' ->
  exists descr,
    room_dict !! r' = Some descr /\
    handle_line (lit "move " ++ d) s =
      Returns tt (set_output_buffer descr
                    (set_room r' (set_input_buffer (lit "move " ++ d) s))) /\
    handle_received (lit "move " ++ d) s =
      handle_line (lit "move " ++ d) s.
Proof.
  intros H.
  destruct (move_legal (set_input_buffer (lit "move " ++ d) s) d r' H)
    as [descr [Hd Hm]].
  exists descr. split; [exact Hd|]. split.
  - change (lit "move " ++ d) with (lit "move" ++ sp :: d).
    rewrite handle_line_word_space by reflexivity.
    rewrite dispatch_move. exact Hm.
  - rewrite handle_received_strip. f_equal.
    apply valid_moves_Some in H. rewrite !elem_of_cons, elem_of_nil in H.
    repeat (destruct H as [[= _ -> _] | H]; [reflexivity|]).
    destruct H.
Qed.

Lemma move_in_table_witness :
  exists descr,
    room_dict !! 3%Z = Some descr /\
    handle_line (lit "move " ++ lit "north") (__init__ 50000) =
      Returns tt (set_output_buffer descr
                    (set_room 3 (set_input_buffer (lit "move " ++ lit "north")
                                   (__init__ 50000)))) /\
    handle_received (lit "move " ++ lit "north") (__init__ 50000) =
      handle_line (lit "move " ++ lit "north") (__init__ 50000).
Proof.
  apply (move_in_table (__init__ 50000) (lit "north") 3%Z). reflexivity.
Defined.

(** C2.  For every pair of a room and a direction that is not in the table
    [valid_moves], whatever the direction string is, handling the input line
    ["move " + direction] leaves [room] as it is and replies
    ["Not a valid move! Please try again."].  It is so as well through the
    trimming of [get_input], for a direction without trailing whitespace. *)
Theorem move_not_in_table (s : Server) (d : list N) :
  valid_moves !! (room s, d) = None ->
  handle_line (lit "move " ++ d) s =
    Returns tt (set_output_buffer (lit "Not a valid move! Please try again.")
                  (set_input_buffer (lit "move " ++ d) s)) /\
  (rstrip d = d ->
   handle_received (lit "move " ++ d) s =
     Returns tt (set_output_buffer (lit "Not a valid move! Please try again.")
                   (set_input_buffer (strip (lit "move " ++ d)) s))).
Proof.
  intros H. split.
  - change (lit "move " ++ d) with (lit "move" ++ sp :: d).
    rewrite handle_line_word_space by reflexivity.
    rewrite dispatch_move. now apply move_illegal.
  - intros Hd. rewrite handle_received_strip.
    change (lit "move " ++ d) with (lit "move" ++ sp :: d).
    rewrite strip_word_space by easy. rewrite Hd.
    destruct d as [|c d'].
    + rewrite handle_line_bare by reflexivity.
      rewrite dispatch_move. now apply move_illegal.
    + rewrite handle_line_word_space by reflexivity.
      rewrite dispatch_move. now apply move_illegal.
Qed.

Lemma move_not_in_table_witness :
  handle_line (lit "move " ++ lit "up") (__init__ 50000) =
    Returns tt (set_output_buffer (lit "Not a valid move! Please try again.")
                  (set_input_buffer (lit "move " ++ lit "up") (__init__ 50000))) /\
  handle_received (lit "move " ++ lit "up") (__init__ 50000) =
    Returns tt (set_output_buffer (lit "Not a valid move! Please try again.")
                  (set_input_buffer (strip (lit "move " ++ lit "up"))
                     (__init__ 50000))).
Proof.
  destruct (move_not_in_table (__init__ 50000) (lit "up")) as [H1 H2];
    [reflexivity|].
  split; [exact H1 | apply H2; reflexivity].
Defined.

(** The trimming counts: a direction followed by whitespace is not a key of
    the table, yet the line that [get_input] leaves moves the client. *)
Example move_trailing_whitespace :
  valid_moves !! (0%Z, lit "north ") = None /\
  room (final (handle_line (lit "move north ") (__init__ 50000))) = 0%Z /\
  room (final (handle_received (lit "move north ") (__init__ 50000))) = 3%Z.
Proof. repeat split; reflexivity. Qed.

(* ===================================================================== *)
(** ** Speaking *)
(* ===================================================================== *)

(** C6.  For every argument, [say] replies [You say, '<argument>'] with the
    argument copied as it is, quote characters included; [route] hands to
    [say] all that follows the first space of the input line. *)
Theorem say_reply (s : Server) (argument : list N) :
  say argument s =
    Returns tt (set_output_buffer (lit "You say, '" ++ argument ++ lit "'") s) /\
  handle_line (lit "say " ++ argument) s =
    Returns tt (set_output_buffer (lit "You say, '" ++ argument ++ lit "'")
                  (set_input_buffer (lit "say " ++ argument) s)).
Proof.
  split; [reflexivity|].
  change (lit "say " ++ argument) with (lit "say" ++ sp :: argument).
  rewrite handle_line_word_space by reflexivity. reflexivity.
Qed.

Example say_quotes_not_escaped :
  output_buffer (final (handle_line (lit "say it's 'here'") (__init__ 50000)))
  = lit "You say, 'it's 'here''".
Proof. reflexivity. Qed.

(** C7.  For every string [t], handling the input line ["say " + t] changes
    neither [room] nor [done], on the line as it is and on the line as
    [get_input] trims it; [t] may be empty or all whitespace. *)
Theorem say_keeps_room_and_done (s : Server) (t : list N) :
  (exists s', handle_line (lit "say " ++ t) s = Returns tt s' /\
              room s' = room s /\ done s' = done s) /\
  (exists s', handle_received (lit "say " ++ t) s = Returns tt s' /\
              room s' = room s /\ done s' = done s).
Proof.
  split.
  - change (lit "say " ++ t) with (lit "say" ++ sp :: t).
    rewrite handle_line_word_space by reflexivity. rewrite dispatch_say.
    eexists. split; [reflexivity|]. split; reflexivity.
  - rewrite handle_received_strip.
    change (lit "say " ++ t) with (lit "say" ++ sp :: t).
    rewrite strip_word_space by easy.
    destruct (rstrip t) as [|c t'].
    + rewrite handle_line_bare by reflexivity. rewrite dispatch_say.
      eexists. split; [reflexivity|]. split; reflexivity.
    + rewrite handle_line_word_space by reflexivity. rewrite dispatch_say.
      eexists. split; [reflexivity|]. split; reflexivity.
Qed.

Example say_whitespace_only :
  let s := final (handle_received (lit "say " ++ [sp; 9%N; sp] ++ [nl])
                    (__init__ 50000)) in
  output_buffer s = lit "You say, ''" /\ room s = 0%Z /\ done s = false.
Proof. repeat split; reflexivity. Qed.

(* ===================================================================== *)
(** ** Quitting *)
(* ===================================================================== *)

(** C4, as it is stated, fails: the suffix ["s"] makes the line ["quits"],
    which is no command; [done] stays [False] and the reply is
    ["Not a valid command."]. *)
Lemma quit_suffix_counterexample :
  let o := handle_line (lit "quit" ++ lit "s") (__init__ 50000) in
  o = Returns tt (final o) /\
  done (final o) = false /\
  output_buffer (final o) = lit "Not a valid command." /\
  output_buffer (final o) <> lit "Goodbye!" /\
  handle_received (lit "quit" ++ lit "s") (__init__ 50000) = o.
Proof. repeat split; try reflexivity. discriminate. Qed.

(** C4, amended.  The input line ["quit"], and for every argument the input
    line ["quit " + argument], sets [done] and replies ["Goodbye!"]; the
    argument is ignored.  It is so as well on the line as [get_input] trims
    it. *)
Theorem quit_reply (s : Server) (argument : list N) :
  handle_line (lit "quit") s =
    Returns tt (set_output_buffer (lit "Goodbye!")
                  (set_done true (set_input_buffer (lit "quit") s))) /\
  handle_line (lit "quit " ++ argument) s =
    Returns tt (set_output_buffer (lit "Goodbye!")
                  (set_done true
                     (set_input_buffer (lit "quit " ++ argument) s))) /\
  handle_received (lit "quit " ++ argument) s =
    Returns tt (set_output_buffer (lit "Goodbye!")
                  (set_done true
                     (set_input_buffer (strip (lit "quit " ++ argument)) s))).
Proof.
  split; [reflexivity|]. split.
  - change (lit "quit " ++ argument) with (lit "quit" ++ sp :: argument).
    rewrite handle_line_word_space by reflexivity. reflexivity.
  - rewrite handle_received_strip.
    change (lit "quit " ++ argument) with (lit "quit" ++ sp :: argument).
    rewrite strip_word_space by easy.
    destruct (rstrip argument) as [|c t'].
    + rewrite handle_line_bare by reflexivity. reflexivity.
    + rewrite handle_line_word_space by reflexivity. reflexivity.
Qed.

(* ===================================================================== *)
(** ** The parse step *)
(* ===================================================================== *)

Lemma lstrip_decompose s :
  exists before, s = before ++ lstrip s /\ forallb isspace before = true.
Proof.
  induction s as [|c t [before [Ht Hb]]]; [now exists []|].
  cbn [lstrip]. destruct (isspace c) eqn:Hc.
  - exists (c :: before). split; [now rewrite Ht at 1|].
    cbn [forallb]. now rewrite Hc.
  - now exists [].
Qed.

Lemma rstrip_decompose s :
  exists after, s = rstrip s ++ after /\ forallb isspace after = true.
Proof.
  induction s as [|c t [after [Ht Ha]]]; [now exists []|].
  rewrite rstrip_cons. destruct (rstrip t) as [|x t'].
  - cbn [app] in Ht. subst t. destruct (isspace c) eqn:Hc.
    + exists (c :: after). split; [reflexivity|]. cbn [forallb]. now rewrite Hc.
    + now exists after.
  - exists after. split; [now rewrite Ht at 1|exact Ha].
Qed.

Lemma lstrip_head s c : head (lstrip s) = Some c -> isspace c = false.
Proof.
  induction s as [|x t IH]; [discriminate|].
  cbn [lstrip]. destruct (isspace x) eqn:Hx; [exact IH|].
  intros [= <-]. exact Hx.
Qed.

Lemma rstrip_last s c : last (rstrip s) = Some c -> isspace c = false.
Proof.
  revert c. induction s as [|x t IH]; intros c; [discriminate|].
  rewrite rstrip_cons. destruct (rstrip t) as [|y t'].
  - destruct (isspace x) eqn:Hx; [discriminate|]. intros [= <-]. exact Hx.
  - intros H. apply IH. exact H.
Qed.

Lemma rstrip_head s c : head (rstrip s) = Some c -> head s = Some c.
Proof.
  destruct s as [|x t]; [discriminate|]. rewrite rstrip_cons.
  destruct (rstrip t); [destruct (isspace x)|]; [discriminate| |]; intros H; exact H.
Qed.

Lemma strip_decompose s :
  exists before after,
    s = before ++ strip s ++ after /\
    forallb isspace before = true /\ forallb isspace after = true.
Proof.
  destruct (lstrip_decompose s) as [before [Hs Hb]].
  destruct (rstrip_decompose (lstrip s)) as [after [Hl Ha]].
  exists before, after. unfold strip. rewrite <- Hl. auto.
Qed.

Lemma strip_ends s c :
  head (strip s) = Some c \/ last (strip s) = Some c -> isspace c = false.
Proof.
  unfold strip. intros [H|H].
  - apply rstrip_head in H. now apply lstrip_head in H.
  - now apply rstrip_last in H.
Qed.

(** Every line is a word without space, alone or followed by a space. *)
Lemma first_space (line : list N) :
  exists command,
    contains sp command = false /\
    (line = command \/ exists argument, line = command ++ sp :: argument).
Proof.
  induction line as [|c t [w [Hw Ht]]]; [exists []; auto|].
  destruct (N.eqb_spec sp c) as [<-|Hne].
  - exists []. split; [reflexivity|]. right. now exists t.
  - exists (c :: w). split.
    + rewrite contains_cons, Hw. apply N.eqb_neq in Hne. now rewrite Hne.
    + destruct Ht as [->|[a ->]]; [now left|right; now exists a].
Qed.

Lemma parse_route (received : list N) (s : Server) :
  handle_received received s =
  dispatch (fst (parse received)) (snd (parse received))
    (set_input_buffer (strip received) s).
Proof.
  unfold handle_received, parse, route, bind, assign, self.
  cbn [input_buffer set_input_buffer].
  pose proof (split_not_nil sp (strip received)).
  destruct (split sp (strip received)); [easy|reflexivity].
Qed.

(** C3, as it is stated, fails on a line that starts with whitespace:
    [strip] removes it, so that the command is [say]; trimming at the end
    only, as the claim has it, leaves an empty command in front of the first
    space. *)
Lemma parse_leading_whitespace_counterexample :
  parse (lit " say hi") = (lit "say", lit "hi") /\
  Spec.parse (lit " say hi") = ([], lit "say hi") /\
  parse (lit " say hi") <> Spec.parse (lit " say hi") /\
  strip (lit " say hi") <> rstrip (lit " say hi").
Proof. repeat split; try reflexivity; discriminate. Qed.

(** The line is cut at its first space character, not at a run of
    whitespace: a second space belongs to the argument, and a tab does not
    separate. *)
Example parse_single_space :
  parse (lit "say  hi") = (lit "say", lit " hi") /\
  Spec.parse (lit "say  hi") = (lit "say", lit "hi") /\
  parse (lit "say" ++ 9%N :: lit "hi") = (lit "say" ++ 9%N :: lit "hi", []).
Proof. repeat split; reflexivity. Qed.

(** C3, amended.  The parse step trims the received text at both ends
    ([strip] of [get_input]: the text is whitespace, the line, whitespace,
    and the line neither starts nor ends with whitespace) and cuts the line
    at its first space character: the command is what precedes it and has
    no space, the argument is all that follows it, as it is; a line without
    a space is a command with an empty argument.  [route] dispatches on
    these two. *)
Theorem parse_trims_both_ends_and_cuts_at_first_space (received : list N) :
  let line := strip received in
  (exists before after,
      received = before ++ line ++ after /\
      forallb isspace before = true /\ forallb isspace after = true) /\
  (forall c, head line = Some c \/ last line = Some c -> isspace c = false) /\
  (exists command argument,
      parse received = (command, argument) /\
      contains sp command = false /\
      (line = command /\ argument = [] \/ line = command ++ sp :: argument)) /\
  (forall s, handle_received received s =
             dispatch (fst (parse received)) (snd (parse received))
               (set_input_buffer line s)).
Proof.
  intros line. split; [apply strip_decompose|].
  split; [apply strip_ends|]. split; [|apply parse_route].
  destruct (first_space line) as [w [Hw [Hl|[a Hl]]]].
  - exists w, []. unfold parse. fold line. rewrite Hl, (split_bare _ Hw). auto.
  - exists w, a. unfold parse. fold line.
    rewrite Hl, (split_word _ _ Hw), join_split. auto.
Qed.

Lemma parse_trims_both_ends_and_cuts_at_first_space_witness :
  isspace 115%N = false /\
  exists command argument,
    parse (lit "  say hello  world " ++ [nl]) = (command, argument) /\
    command = lit "say" /\ argument = lit "hello  world".
Proof.
  pose proof (parse_trims_both_ends_and_cuts_at_first_space
                (lit "  say hello  world " ++ [nl])) as [_ [Hends [Hcut _]]].
  split.
  - apply Hends. left. reflexivity.
  - destruct Hcut as [command [argument [Hp _]]].
    exists command, argument. split; [exact Hp|].
    change (parse (lit "  say hello  world " ++ [nl]))
      with (lit "say", lit "hello  world") in Hp.
    now inversion Hp.
Defined.

(* ===================================================================== *)
(** ** The router as a state machine *)
(* ===================================================================== *)

Lemma dispatch_returns (command arguments : list N) (s : Server) :
  exists s', dispatch command arguments s = Returns tt s' /\ router_step s s'.
Proof.
  unfold dispatch. destruct (routing_dict !! command) as [handler|] eqn:Hc.
  - apply routing_dict_Some in Hc as [[_ ->]|[[_ ->]|[_ ->]]].
    + eexists. split; [reflexivity|]. now repeat split.
    + destruct (valid_moves !! (room s, arguments)) as [r'|] eqn:Hm.
      * destruct (move_legal s arguments r' Hm) as [descr [Hd ->]].
        eexists. split; [reflexivity|]. repeat split; try (intros; assumption);
          cbn [room set_output_buffer set_room];
          apply room_dict_dom; now exists descr.
      * rewrite (move_illegal s arguments Hm).
        eexists. split; [reflexivity|]. now repeat split.
    + eexists. split; [reflexivity|]. now repeat split.
  - eexists. split; [reflexivity|]. now repeat split.
Qed.

Lemma route_returns (s : Server) :
  exists s', route s = Returns tt s' /\ router_step s s'.
Proof.
  unfold route, bind, self.
  pose proof (split_not_nil sp (input_buffer s)).
  destruct (split sp (input_buffer s)) as [|w ws]; [easy|].
  apply dispatch_returns.
Qed.

Lemma handle_line_returns (line : list N) (s : Server) :
  exists s', handle_line line s = Returns tt s' /\
    (done s = true -> done s' = true) /\
    ((0 <= room s <= 3)%Z -> (0 <= room s' <= 3)%Z).
Proof.
  unfold handle_line, bind, assign.
  destruct (route_returns (set_input_buffer line s)) as [s' [-> H]].
  exists s'. split; [reflexivity|]. apply H.
Qed.

Lemma serve_loop_done (fuel : nat) (s : Server) :
  done s = true -> serve_loop fuel s = Returns tt s.
Proof. intros H. destruct fuel; unfold serve_loop, bind, self; now rewrite H. Qed.

(** C5, as it is stated, fails: [route] does not look at [done].  After
    [quit], a legal move still changes [room], and the reply still depends
    on the line. *)
Lemma terminated_router_counterexample :
  let s := final (handle_line (lit "quit") (__init__ 50000)) in
  let s' := final (handle_line (lit "move north") s) in
  done s = true /\ room s = 0%Z /\
  handle_line (lit "move north") s = Returns tt s' /\
  room s' = 3%Z /\
  output_buffer s' = lit "You are in the room with the mauve wallpaper" /\
  output_buffer (final (handle_line (lit "say hi") s)) = lit "You say, 'hi'".
Proof. repeat split; reflexivity. Qed.

(** C5, amended.  Once [done] is set no input line resets it: [route]
    returns with [done] still set.  What keeps the router from further input
    is the loop of [serve], which ends without reading, routing or sending
    as soon as [done] is set. *)
Theorem done_is_never_reset (s : Server) (line : list N) :
  done s = true ->
  (exists s', handle_line line s = Returns tt s' /\ done s' = true) /\
  (forall fuel, serve_loop fuel s = Returns tt s).
Proof.
  intros H. split.
  - destruct (handle_line_returns line s) as [s' [Hr [Hd _]]].
    exists s'. auto.
  - intros fuel. now apply serve_loop_done.
Qed.

Lemma done_is_never_reset_witness :
  let s := set_done true (__init__ 50000) in
  (exists s', handle_line (lit "move north") s = Returns tt s' /\ done s' = true) /\
  (forall fuel, serve_loop fuel s = Returns tt s).
Proof.
  apply (done_is_never_reset (set_done true (__init__ 50000)) (lit "move north")).
  reflexivity.
Defined.

Lemma handle_lines_returns (lines : list (list N)) (s : Server) :
  (0 <= room s <= 3)%Z ->
  exists s', handle_lines lines s = Returns tt s' /\ (0 <= room s' <= 3)%Z.
Proof.
  revert s. induction lines as [|line rest IH]; intros s Hs.
  - exists s. auto.
  - destruct (handle_line_returns line s) as [s1 [H1 [_ Hr]]].
    destruct (IH s1 (Hr Hs)) as [s' [H' Hs']].
    exists s'. split; [|exact Hs'].
    cbn [handle_lines]. unfold bind. now rewrite H1.
Qed.

(* ===================================================================== *)
(** ** Reading and serving: the loops *)
(* ===================================================================== *)

Lemma set_client_connection_same (s : Server) :
  set_client_connection (client_connection s) s = s.
Proof. now destruct s. Qed.

(** The loop of [get_input] takes [recv] results from the front of the
    pending ones, records them in the trace, and touches nothing else; with
    more fuel than pending results it does not run out of fuel. *)
Lemma get_input_loop_inv (fuel : nat) :
  forall (received : list N) (s : Server),
    pending_count s < fuel ->
    (forall s', get_input_loop fuel received s <> OutOfFuel s') /\
    exists taken,
      pending_of s = taken ++ pending_of (final (get_input_loop fuel received s)) /\
      trace_of (final (get_input_loop fuel received s)) =
        trace_of s ++ map Recv taken /\
      final (get_input_loop fuel received s) =
        set_client_connection
          (client_connection (final (get_input_loop fuel received s))) s /\
      (forall r s', get_input_loop fuel received s = Returns r s' ->
                    contains nl received = false -> taken <> []).
Proof.
  induction fuel as [|fuel IH]; intros received s Hfuel; [lia|].
  cbn [get_input_loop]. destruct (contains nl received) eqn:Hnl.
  { split; [discriminate|]. exists []. cbn [final ret map].
    split; [reflexivity|]. split; [now rewrite app_nil_r|].
    split; [symmetry; apply set_client_connection_same|]. congruence. }
  unfold bind at 1. unfold recv, bind, self, or_raise.
  unfold pending_count in Hfuel. unfold pending_of at 1, trace_of at 2.
  destruct (client_connection s) as [c|] eqn:Hc.
  2:{ split; [discriminate|]. exists []. cbn [final raise map].
      unfold pending_of, trace_of. rewrite Hc.
      split; [reflexivity|]. split; [reflexivity|].
      split; [rewrite <- Hc; symmetry; apply set_client_connection_same|].
      discriminate. }
  cbn [ret]. destruct (pending c) as [|b rest] eqn:Hp.
  { split; [discriminate|]. exists []. cbn [final map].
    unfold pending_of, trace_of. rewrite Hc, Hp.
    split; [reflexivity|]. split; [now rewrite app_nil_r|].
    split; [rewrite <- Hc; symmetry; apply set_client_connection_same|].
    discriminate. }
  cbn [assign ret].
  set (s1 := set_client_connection
               (Some (mkConnection rest (trace c ++ [Recv b]))) s).
  destruct (utf8_decode b) as [t|] eqn:Hd.
  2:{ split; [discriminate|]. exists [b]. cbn [final raise map].
      split; [reflexivity|]. split; [reflexivity|].
      split; [reflexivity|]. discriminate. }
  cbn [ret length] in *.
  destruct (IH (received ++ t) s1) as [Hof [taken [Hpen [Htr [Hfin _]]]]];
    [cbn; lia|].
  split; [exact Hof|]. exists (b :: taken).
  split; [cbn [app]; now rewrite <- Hpen|].
  split; [rewrite Htr; change (trace_of s1) with (trace c ++ [Recv b]);
          cbn [map]; now rewrite <- app_assoc|].
  split; [rewrite Hfin at 1; reflexivity|]. discriminate.
Qed.

Lemma get_input_inv (s : Server) :
  (forall s', get_input s <> OutOfFuel s') /\
  exists taken,
    pending_of s = taken ++ pending_of (final (get_input s)) /\
    trace_of (final (get_input s)) = trace_of s ++ map Recv taken /\
    room (final (get_input s)) = room s /\
    done (final (get_input s)) = done s /\
    (forall s', get_input s = Returns tt s' -> taken <> []).
Proof.
  destruct (get_input_loop_inv (S (pending_count s)) [] s)
    as [Hof [taken [Hpen [Htr [Hfin Hne]]]]]; [lia|].
  unfold get_input, bind, self.
  destruct (get_input_loop (S (pending_count s)) [] s) as [r s1|e s1|s1|s1] eqn:Hl;
    cbn [final assign] in *.
  - split; [discriminate|]. exists taken.
    split; [exact Hpen|]. split; [exact Htr|].
    rewrite Hfin. repeat split. intros _ _. now apply (Hne r s1).
  - split; [discriminate|]. exists taken. rewrite Hfin at 3 4.
    repeat split; try assumption. discriminate.
  - split; [discriminate|]. exists taken. rewrite Hfin at 3 4.
    repeat split; try assumption. discriminate.
  - now destruct (Hof s1).
Qed.

(** The bound on the loop of [get_input] is never reached. *)
Lemma get_input_fuel (s s' : Server) : get_input s <> OutOfFuel s'.
Proof. apply get_input_inv. Qed.

Lemma push_output_cases (s : Server) :
  (exists e, push_output s = Raises e s) \/
  (exists c b,
      client_connection s = Some c /\
      utf8_encode (lit "OK! " ++ output_buffer s ++ [nl]) = Some b /\
      push_output s =
        Returns tt (set_client_connection
                      (Some (mkConnection (pending c) (trace c ++ [Send b]))) s)).
Proof.
  unfold push_output, bind, self, sendall, bind, self, or_raise.
  destruct (utf8_encode _) as [b|]; [|left; now eexists].
  cbn [ret]. destruct (client_connection s) as [c|] eqn:Hc; [|left; now eexists].
  right. exists c, b. auto.
Qed.

Lemma starts_with_recv_map (taken : list (list byte)) (t : list event) :
  taken <> [] -> starts_with_recv (map Recv taken ++ t).
Proof. destruct taken; [easy|]. intros _. exact I. Qed.

Lemma starts_with_recv_map_only (taken : list (list byte)) :
  starts_with_recv (map Recv taken).
Proof. destruct taken; exact I. Qed.

Lemma serve_loop_S (fuel : nat) (s : Server) :
  serve_loop (S fuel) s =
  if done s then Returns tt s
  else match get_input s with
       | Returns _ s1 =>
           match route s1 with
           | Returns _ s2 =>
               match push_output s2 with
               | Returns _ s3 => serve_loop fuel s3
               | Raises e s' => Raises e s'
               | Hangs s' => Hangs s'
               | OutOfFuel s' => OutOfFuel s'
               end
           | Raises e s' => Raises e s'
           | Hangs s' => Hangs s'
           | OutOfFuel s' => OutOfFuel s'
           end
       | Raises e s' => Raises e s'
       | Hangs s' => Hangs s'
       | OutOfFuel s' => OutOfFuel s'
       end.
Proof.
  cbn [serve_loop]. unfold bind, self. destruct (done s); reflexivity.
Qed.

(** The loop of [serve]: with more fuel than pending [recv] results it does
    not run out of fuel; it only adds to the trace, and what it adds starts
    with a [recv]. *)
Lemma serve_loop_inv (fuel : nat) :
  forall s : Server,
    pending_count s < fuel ->
    (forall s', serve_loop fuel s <> OutOfFuel s') /\
    exists ev,
      trace_of (final (serve_loop fuel s)) = trace_of s ++ ev /\
      (done s = false ->
       starts_with_recv ev /\
       (forall s', serve_loop fuel s = Returns tt s' -> ev <> [])).
Proof.
  induction fuel as [|fuel IH]; intros s Hfuel; [lia|].
  rewrite serve_loop_S.
  destruct (done s) eqn:Hdone.
  { split; [discriminate|]. exists []. rewrite app_nil_r.
    split; [reflexivity|discriminate]. }
  destruct (get_input_inv s) as [Hof [taken [Hpen [Htr [_ [_ Hne]]]]]].
  destruct (get_input s) as [[] s1|e s1|s1|s1] eqn:Hg; cbn [final] in *.
  2,3: split; [discriminate|]; exists (map Recv taken);
       split; [exact Htr|]; intros _;
       split; [apply starts_with_recv_map_only|discriminate].
  2: now destruct (Hof s1).
  specialize (Hne s1 eq_refl).
  assert (pending_count s1 < pending_count s) as Hless.
  { unfold pending_count. unfold pending_of in Hpen.
    destruct (client_connection s) as [c|]; destruct (client_connection s1) as [c1|];
      destruct taken; try easy; rewrite Hpen, length_app; cbn; lia. }
  destruct (route_returns s1) as [s2 [Hr [_ [_ [Hcc _]]]]].
  rewrite Hr.
  assert (trace_of s2 = trace_of s1) as Htr2 by (unfold trace_of; now rewrite Hcc).
  assert (pending_count s2 = pending_count s1) as Hpc2
      by (unfold pending_count; now rewrite Hcc).
  destruct (push_output_cases s2) as [[e He]|[c [b [Hc [_ Hp]]]]].
  - rewrite He. cbn [final]. split; [discriminate|].
    exists (map Recv taken). rewrite Htr2. split; [exact Htr|]. intros _.
    split; [apply starts_with_recv_map_only|discriminate].
  - rewrite Hp.
    set (s3 := set_client_connection
                 (Some (mkConnection (pending c) (trace c ++ [Send b]))) s2).
    destruct (IH s3) as [Hof3 [ev [Hev _]]].
    { unfold pending_count in *. cbn. rewrite Hc in Hpc2. lia. }
    split; [exact Hof3|].
    exists (map Recv taken ++ Send b :: ev). split.
    + rewrite Hev. change (trace_of s3) with (trace c ++ [Send b]).
      unfold trace_of in Htr2 at 1. rewrite Hc in Htr2. rewrite Htr2, Htr.
      now rewrite <- !app_assoc.
    + intros _. split; [now apply starts_with_recv_map|].
      intros _ _ Hnil. apply app_eq_nil in Hnil as [Hnil _].
      destruct taken; [easy|discriminate].
Qed.

(* ===================================================================== *)
(** ** The greeting *)
(* ===================================================================== *)

Lemma serve_prelude (port : Z) (incoming : list (list byte)) :
  (connect incoming ;; greet ;; push_output) (__init__ port) =
  Returns tt
    (set_client_connection (Some (mkConnection incoming [Send greeting]))
       (set_output_buffer
          (lit "Welcome to Realms of Venture! You are in the room with the white wallpaper")
          (set_socket (Some (Listening ("127.0.0.1"%string, port)))
             (__init__ port)))).
Proof. reflexivity. Qed.

Lemma serve_after_prelude (incoming : list (list byte)) (s s1 : Server) :
  (connect incoming ;; greet ;; push_output) s = Returns tt s1 ->
  serve incoming s =
  (serve_loop (S (length incoming)) ;; close_connection ;; close_socket) s1.
Proof.
  unfold serve, bind. destruct (connect incoming s) as [[] s'| | |]; try discriminate.
  destruct (greet s') as [[] s''| | |]; try discriminate.
  intros ->. reflexivity.
Qed.

(** C8.  Whatever the client is going to send, [serve] first sends the
    welcome and the description of room 0, framed:
    [OK! Welcome to Realms of Venture! You are in the room with the white
    wallpaper] and a newline.  When it has been sent no input has been
    taken; it is the first event of the connection, and what follows it, if
    anything, starts with a [recv]: no second message is sent unasked. *)
Theorem greeting_first (port : Z) (incoming : list (list byte)) :
  (exists s1,
      (connect incoming ;; greet ;; push_output) (__init__ port) = Returns tt s1 /\
      trace_of s1 = [Send greeting] /\ pending_of s1 = incoming) /\
  (exists rest,
      trace_of (final (serve incoming (__init__ port))) = Send greeting :: rest /\
      starts_with_recv rest).
Proof.
  pose proof (serve_prelude port incoming) as Hpre.
  set (s1 := set_client_connection _ _) in Hpre.
  split; [exists s1; repeat split; exact Hpre|].
  rewrite (serve_after_prelude _ _ _ Hpre).
  destruct (serve_loop_inv (S (length incoming)) s1) as [_ [ev [Hev Hrecv]]];
    [cbn; lia|].
  destruct (Hrecv eq_refl) as [Hstart Hne].
  change (trace_of s1) with [Send greeting] in Hev.
  unfold bind at 1.
  destruct (serve_loop (S (length incoming)) s1) as [[] s2|e s2|s2|s2] eqn:Hl;
    cbn [final] in *.
  2,3,4: exists ev; split; [exact Hev|exact Hstart].
  specialize (Hne s2 eq_refl).
  exists (ev ++ [Close]). split.
  - unfold close_connection, bind, self, or_raise. unfold trace_of in Hev.
    destruct (client_connection s2) as [c|] eqn:Hc; [|discriminate].
    cbn [ret assign]. unfold close_socket, bind, self, or_raise.
    cbn [socket set_client_connection].
    destruct (socket s2); cbn [ret raise assign final]; unfold trace_of;
      cbn [client_connection set_socket set_client_connection trace];
      now rewrite Hev.
  - destruct ev as [|[] ev']; easy.
Qed.

(** The bound on the loop of [serve] is never reached. *)
Lemma serve_fuel (incoming : list (list byte)) (port : Z) (s' : Server) :
  serve incoming (__init__ port) <> OutOfFuel s'.
Proof.
  rewrite (serve_after_prelude _ _ _ (serve_prelude port incoming)).
  set (s1 := set_client_connection _ _).
  destruct (serve_loop_inv (S (length incoming)) s1) as [Hof _]; [cbn; lia|].
  unfold bind at 1.
  destruct (serve_loop (S (length incoming)) s1) as [[] s2|e s2|s2|s2] eqn:Hl;
    try discriminate; [|now destruct (Hof s2)].
  unfold close_connection, close_socket, bind, self, or_raise, assign, ret, raise.
  destruct (client_connection s2); [|discriminate].
  cbn [socket set_client_connection]. destruct (socket s2); discriminate.
Qed.

(* ===================================================================== *)
(** ** The input reader *)
(* ===================================================================== *)

Lemma rstrip_app_space (s : list N) (c : N) :
  isspace c = true -> rstrip (s ++ [c]) = rstrip s.
Proof.
  intros Hc. induction s as [|x t IH].
  - cbn [app]. rewrite rstrip_cons. cbn [rstrip]. now rewrite Hc.
  - rewrite <- app_comm_cons, !rstrip_cons, IH. reflexivity.
Qed.

Lemma lstrip_app_space (s : list N) (c : N) :
  isspace c = true ->
  lstrip (s ++ [c]) = match lstrip s with [] => [] | t => t ++ [c] end.
Proof.
  intros Hc. induction s as [|x t IH].
  - cbn. now rewrite Hc.
  - rewrite <- app_comm_cons. cbn [lstrip]. destruct (isspace x); [exact IH|reflexivity].
Qed.

(** A whitespace character at the end of the text, such as the newline that
    ends a message, does not show in the stripped text. *)
Lemma strip_app_space (s : list N) (c : N) :
  isspace c = true -> strip (s ++ [c]) = strip s.
Proof.
  intros Hc. unfold strip. rewrite (lstrip_app_space _ _ Hc).
  destruct (lstrip s) as [|x t]; [reflexivity|].
  now rewrite (rstrip_app_space _ _ Hc).
Qed.

(** The loop of [get_input] on chunks that all decode, none with a newline
    but the last one. *)
Lemma get_input_loop_chunks (pre : list (list byte)) :
  forall (texts : list (list N)) (fuel : nat) (received : list N)
         (s : Server) (c : Connection)
         (last_chunk : list byte) (last_text : list N) (rest : list (list byte)),
    client_connection s = Some c ->
    pending c = pre ++ last_chunk :: rest ->
    Forall2 (fun b t => utf8_decode b = Some t) pre texts ->
    contains nl (received ++ concat texts) = false ->
    utf8_decode last_chunk = Some last_text ->
    contains nl last_text = true ->
    length pre < fuel ->
    get_input_loop fuel received s =
    Returns (received ++ concat texts ++ last_text)
      (set_client_connection
         (Some (mkConnection rest (trace c ++ map Recv (pre ++ [last_chunk]))))
         s).
Proof.
  induction pre as [|b pre IH];
    intros texts fuel received s c last_chunk last_text rest
           Hc Hp Hdec Hno Hlast Hnl Hfuel.
  - apply Forall2_nil_inv_l in Hdec as ->. cbn [concat app] in *.
    rewrite app_nil_r in Hno.
    destruct fuel as [|fuel]; [lia|]. cbn [get_input_loop]. rewrite Hno.
    unfold bind, recv, bind, self, or_raise. rewrite Hc. cbn [ret]. rewrite Hp.
    cbn [assign ret]. rewrite Hlast. cbn [ret].
    destruct fuel; cbn [get_input_loop];
      now rewrite contains_app, Hnl, orb_true_r.
  - apply Forall2_cons_inv_l in Hdec as [t [texts' [Ht [Hdec ->]]]].
    cbn [concat] in *.
    destruct fuel as [|fuel]; [cbn in Hfuel; lia|]. cbn [get_input_loop].
    rewrite contains_app in Hno. apply orb_false_elim in Hno as [Hno1 Hno2].
    rewrite Hno1.
    unfold bind at 1. unfold recv, bind, self, or_raise. rewrite Hc. cbn [ret].
    rewrite Hp. cbn [app assign ret]. rewrite Ht. cbn [ret].
    rewrite (IH texts' fuel (received ++ t) _
               (mkConnection (pre ++ last_chunk :: rest) (trace c ++ [Recv b]))
               last_chunk last_text rest); try reflexivity; try assumption.
    + cbn [trace map app]. now rewrite <- !app_assoc.
    + now rewrite <- app_assoc, contains_app, Hno1.
    + cbn in Hfuel. lia.
Qed.

(** C9.  [get_input] reads up to a newline and then forgets to cut there:
    it keeps all that it has received.  Here the twelve bytes of two
    messages arrive in one [recv]; the input line ought to be [say hi], with
    [quit] left for the next turn, and it is both of them, newline in the
    middle, with nothing left to read. *)
Lemma get_input_merges_lines_counterexample :
  let chunk := blit "say hi" ++ [x0a] ++ blit "quit" ++ [x0a] in
  let s := final (connect [chunk] (__init__ 50000)) in
  let s' := final (get_input s) in
  length chunk <= BYTES /\
  get_input s = Returns tt s' /\
  input_buffer s' = lit "say hi" ++ [nl] ++ lit "quit" /\
  input_buffer s' <> strip (lit "say hi") /\
  pending_of s' = [] /\
  output_buffer (final (route s')) = lit "You say, 'hi" ++ [nl] ++ lit "quit'".
Proof.
  cbv zeta. split; [apply Nat.leb_le; reflexivity|].
  repeat split; try reflexivity. discriminate.
Qed.

(** The session of that client: its [quit] is never seen, and [serve] waits
    for input that does not come. *)
Example serve_merged_lines_hangs :
  let chunk := blit "say hi" ++ [x0a] ++ blit "quit" ++ [x0a] in
  exists s', serve [chunk] (__init__ 50000) = Hangs s' /\ done s' = false.
Proof. eexists. split; reflexivity. Qed.

(** Each chunk is decoded on its own: a character whose bytes two [recv]
    results share makes [get_input] raise. *)
Example get_input_split_character :
  let s := final (connect [blit "say caf" ++ [xc3]; [xa9; x0a]]
                    (__init__ 50000)) in
  utf8_decode (blit "say caf" ++ [xc3; xa9; x0a])
  = Some (lit "say caf" ++ [0xE9%N; nl]) /\
  exists s', get_input s = Raises UnicodeDecodeError s'.
Proof. split; [reflexivity|]. eexists. reflexivity. Qed.

(** X25.  A line that comes alone.  When the chunks decode and the first
    newline received is the last character of its chunk, [get_input] takes
    the chunks up to that one and no more, and the input line is the text
    before the newline, stripped. *)
Theorem get_input_reads_one_line
    (s : Server) (c : Connection) (pre : list (list byte)) (texts : list (list N))
    (last_chunk : list byte) (line : list N) (rest : list (list byte)) :
  client_connection s = Some c ->
  pending c = pre ++ last_chunk :: rest ->
  Forall2 (fun b t => utf8_decode b = Some t) pre texts ->
  contains nl (concat texts) = false ->
  utf8_decode last_chunk = Some (line ++ [nl]) ->
  contains nl line = false ->
  get_input s =
    Returns tt
      (set_input_buffer (strip (concat texts ++ line))
         (set_client_connection
            (Some (mkConnection rest
                     (trace c ++ map Recv (pre ++ [last_chunk])))) s)).
Proof.
  intros Hc Hp Hdec Hno Hlast Hline.
  unfold get_input, bind, self.
  rewrite (get_input_loop_chunks pre texts _ [] s c last_chunk
             (line ++ [nl]) rest); try assumption.
  - cbn [app assign]. rewrite app_assoc.
    now rewrite strip_app_space by reflexivity.
  - now rewrite contains_app, orb_true_r.
  - unfold pending_count. rewrite Hc, Hp, length_app. cbn. lia.
Qed.

Lemma get_input_reads_one_line_witness :
  let c := mkConnection [blit "move no"; blit "rth" ++ [x0a];
                         blit "quit" ++ [x0a]] [] in
  let s := set_client_connection (Some c) (__init__ 50000) in
  get_input s =
    Returns tt
      (set_input_buffer (strip (concat [lit "move no"] ++ lit "rth"))
         (set_client_connection
            (Some (mkConnection [blit "quit" ++ [x0a]]
                     (trace c ++ map Recv ([blit "move no"]
                                           ++ [blit "rth" ++ [x0a]])))) s)).
Proof.
  cbv zeta.
  apply (get_input_reads_one_line
           (set_client_connection
              (Some (mkConnection [blit "move no"; blit "rth" ++ [x0a];
                                   blit "quit" ++ [x0a]] []))
              (__init__ 50000))
           (mkConnection [blit "move no"; blit "rth" ++ [x0a];
                          blit "quit" ++ [x0a]] [])
           [blit "move no"] [lit "move no"]
           (blit "rth" ++ [x0a]) (lit "rth")
           [blit "quit" ++ [x0a]]);
    try reflexivity.
  repeat constructor.
Defined.

(** A turn of the loop of [serve], up to the reply: [get_input] and [route]
    are [handle_received] on the text received. *)
Lemma get_input_then_route
    (s : Server) (c : Connection) (pre : list (list byte))
    (texts : list (list N)) (last_chunk : list byte) (last_text : list N)
    (rest : list (list byte)) :
  client_connection s = Some c ->
  pending c = pre ++ last_chunk :: rest ->
  Forall2 (fun b t => utf8_decode b = Some t) pre texts ->
  contains nl (concat texts) = false ->
  utf8_decode last_chunk = Some last_text ->
  contains nl last_text = true ->
  (get_input ;; route) s =
  handle_received (concat texts ++ last_text)
    (set_client_connection
       (Some (mkConnection rest (trace c ++ map Recv (pre ++ [last_chunk]))))
       s).
Proof.
  intros Hc Hp Hdec Hno Hlast Hnl. unfold bind at 1.
  unfold get_input, bind, self.
  rewrite (get_input_loop_chunks pre texts _ [] s c last_chunk last_text rest);
    try assumption.
  - reflexivity.
  - unfold pending_count. rewrite Hc, Hp, length_app. cbn. lia.
Qed.

(* ===================================================================== *)
(** ** No room without a description *)
(* ===================================================================== *)

Lemma get_input_loop_raises (fuel : nat) :
  forall (received : list N) (s : Server) (e : exn) (s' : Server),
    get_input_loop fuel received s = Raises e s' ->
    e = AttributeError \/ e = UnicodeDecodeError.
Proof.
  induction fuel as [|fuel IH]; intros received s e s';
    cbn [get_input_loop]; destruct (contains nl received); try discriminate.
  unfold bind at 1. unfold recv, bind, self, or_raise.
  destruct (client_connection s) as [c|]; [|intros [= <- _]; now left].
  cbn [ret]. destruct (pending c) as [|b rest]; [discriminate|].
  cbn [assign ret]. destruct (utf8_decode b) as [t|].
  - cbn [ret]. apply IH.
  - intros [= <- _]. now right.
Qed.

Lemma get_input_raises (s : Server) (e : exn) (s' : Server) :
  get_input s = Raises e s' ->
  e = AttributeError \/ e = UnicodeDecodeError.
Proof.
  unfold get_input, bind, self.
  destruct (get_input_loop _ _ _) as [r s1|e1 s1|s1|s1] eqn:Hl; try discriminate.
  intros [= <- _]. eapply get_input_loop_raises, Hl.
Qed.

Lemma push_output_raises (s : Server) (e : exn) (s' : Server) :
  push_output s = Raises e s' ->
  e = AttributeError \/ e = UnicodeEncodeError.
Proof.
  unfold push_output, bind, self, sendall, bind, self, or_raise.
  destruct (utf8_encode _); [|intros [= <- _]; now right].
  cbn [ret]. destruct (client_connection s); [discriminate|].
  intros [= <- _]. now left.
Qed.

(** The loop of [serve] never raises [KeyError]: the only subscripts are
    those of [move], whose destinations all have a description. *)
Lemma serve_loop_raises (fuel : nat) :
  forall (s : Server) (e : exn) (s' : Server),
    serve_loop fuel s = Raises e s' -> e <> KeyError.
Proof.
  induction fuel as [|fuel IH]; intros s e s'.
  - cbn [serve_loop]. unfold bind, self. destruct (done s); discriminate.
  - rewrite serve_loop_S. destruct (done s); [discriminate|].
    destruct (get_input s) as [[] s1|e1 s1|s1|s1] eqn:Hg; try discriminate.
    + destruct (route_returns s1) as [s2 [-> _]].
      destruct (push_output s2) as [[] s3|e3 s3|s3|s3] eqn:Hp; try discriminate.
      * apply IH.
      * intros [= <- _]. destruct (push_output_raises _ _ _ Hp) as [->| ->]; discriminate.
    + intros [= <- _]. destruct (get_input_raises _ _ _ Hg) as [->| ->]; discriminate.
Qed.

Lemma serve_never_KeyError (incoming : list (list byte)) (port : Z) (s' : Server) :
  serve incoming (__init__ port) <> Raises KeyError s'.
Proof.
  assert ((connect incoming ;; greet ;; push_output) (__init__ port) =
          Returns tt (final ((connect incoming ;; greet ;; push_output) (__init__ port))))
    as Hpre by reflexivity.
  set (s1 := final _) in Hpre.
  unfold serve, bind in *.
  destruct (connect incoming (__init__ port)) as [[] sa| | |]; try discriminate.
  destruct (greet sa) as [[] sb| | |]; try discriminate.
  destruct (push_output sb) as [[] sc| | |]; try discriminate.
  destruct (serve_loop _ sc) as [[] s2|e s2|s2|s2] eqn:Hl; try discriminate.
  - unfold close_connection, close_socket, bind, self, or_raise, assign, ret, raise.
    destruct (client_connection s2); [|discriminate].
    cbn [socket set_client_connection]. destruct (socket s2); discriminate.
  - intros [= -> _]. now apply serve_loop_raises in Hl.
Qed.

(** C10.  From the initial state, after any sequence of input lines, all
    handled without an exception, [room] is 0, 1, 2 or 3, a key of
    [room_dict]: [room_description] of it returns, and so would [greet].
    Nor does a whole session raise [KeyError], whatever the client sends. *)
Theorem room_always_described (port : Z) (lines : list (list N)) :
  (exists s' descr,
      handle_lines lines (__init__ port) = Returns tt s' /\
      (0 <= room s' <= 3)%Z /\
      room_dict !! room s' = Some descr /\
      room_description (room s') s' = Returns descr s' /\
      greet s' = Returns tt (set_output_buffer
                   (lit "Welcome to " ++ game_name ++ lit "! " ++ descr) s')) /\
  (forall incoming s', serve incoming (__init__ port) <> Raises KeyError s').
Proof.
  split; [|intros incoming s'; apply serve_never_KeyError].
  destruct (handle_lines_returns lines (__init__ port)) as [s' [H Hr]];
    [cbn; lia|].
  destruct (proj2 (room_dict_dom (room s')) Hr) as [descr Hd].
  exists s', descr.
  split; [exact H|]. split; [exact Hr|]. split; [exact Hd|]. split.
  - unfold room_description. now rewrite Hd.
  - unfold greet, bind, self, room_description. now rewrite Hd.
Qed.

(* ===================================================================== *)
(** ** A whole session *)
(* ===================================================================== *)

(** The session of the specification; the third message is longer than
    [BYTES] and takes two calls of [recv]. *)
Example session :
  exists s',
    serve [blit "move north" ++ [x0a];
           blit "say Hello? Is an"; blit "yone here?" ++ [x0a];
           blit "move south" ++ [x0a];
           blit "move east" ++ [x0a];
           blit "quit" ++ [x0a]] (__init__ 50000)
    = Returns tt s' /\
    room s' = 2%Z /\ done s' = true /\ socket s' = Some Closed /\
    trace_of s' =
      [Send greeting;
       Recv (blit "move north" ++ [x0a]);
       Send (blit "OK! You are in the room with the mauve wallpaper" ++ [x0a]);
       Recv (blit "say Hello? Is an");
       Recv (blit "yone here?" ++ [x0a]);
       Send (blit "OK! You say, 'Hello? Is anyone here?'" ++ [x0a]);
       Recv (blit "move south" ++ [x0a]);
       Send (blit "OK! You are in the room with the white wallpaper" ++ [x0a]);
       Recv (blit "move east" ++ [x0a]);
       Send (blit "OK! You are in the room with the brown wallpaper" ++ [x0a]);
       Recv (blit "quit" ++ [x0a]);
       Send (blit "OK! Goodbye!" ++ [x0a]);
       Close].
Proof.
  eexists. split; [vm_compute; reflexivity|].
  repeat split; vm_compute; reflexivity.
Qed.

Example unknown_command :
  output_buffer (final (handle_line (lit "jump") (__init__ 50000)))
  = lit "Not a valid command." /\
  output_buffer (final (handle_line [] (__init__ 50000)))
  = lit "Not a valid command.".
Proof. split; reflexivity. Qed.

(* ===================================================================== *)
(** ** The rooms and their descriptions *)
(* ===================================================================== *)

(** X1.  [room_description] returns a description, not empty, for the rooms
    0 to 3 and raises [KeyError] for any other number; the instance is as it
    was in both cases. *)
Theorem room_description_domain (r : Z) (s : Server) :
  if decide (0 <= r <= 3)%Z
  then exists d, d <> [] /\ room_description r s = Returns d s
  else room_description r s = Raises KeyError s.
Proof.
  unfold room_description. destruct (decide (0 <= r <= 3)%Z) as [Hr|Hr].
  - assert (r = 0 \/ r = 1 \/ r = 2 \/ r = 3)%Z as [->|[->|[->| ->]]] by lia;
      eexists; (split; [|reflexivity]); discriminate.
  - destruct (room_dict !! r) as [d|] eqn:Hd; [|reflexivity].
    destruct Hr. apply room_dict_dom. now exists d.
Qed.

(** X2.  No two rooms have the same description. *)
Theorem room_descriptions_distinct (r1 r2 : Z) (d : list N) :
  room_dict !! r1 = Some d -> room_dict !! r2 = Some d -> r1 = r2.
Proof.
  intros H1 H2.
  assert (0 <= r1 <= 3)%Z as Hr1 by (apply room_dict_dom; now exists d).
  assert (0 <= r2 <= 3)%Z as Hr2 by (apply room_dict_dom; now exists d).
  assert (r1 = 0 \/ r1 = 1 \/ r1 = 2 \/ r1 = 3)%Z as [->|[->|[->| ->]]] by lia;
    assert (r2 = 0 \/ r2 = 1 \/ r2 = 2 \/ r2 = 3)%Z as [->|[->|[->| ->]]] by lia;
    try reflexivity; vm_compute in H1, H2; congruence.
Qed.

Lemma room_descriptions_distinct_witness :
  room_dict !! 2%Z = Some (lit "You are in the room with the brown wallpaper") /\
  2%Z = 2%Z.
Proof.
  split; [reflexivity|].
  apply (room_descriptions_distinct 2 2
           (lit "You are in the room with the brown wallpaper"));
    reflexivity.
Defined.

(** X3.  [greet] welcomes with the description of the room the client is
    in, whichever it is, and changes nothing but the reply; in a room
    without a description it raises [KeyError] and changes nothing. *)
Theorem greet_current_room (s : Server) :
  if decide (0 <= room s <= 3)%Z
  then exists d,
      room_dict !! room s = Some d /\
      greet s = Returns tt (set_output_buffer
                  (lit "Welcome to Realms of Venture! " ++ d) s)
  else greet s = Raises KeyError s.
Proof.
  unfold greet, bind, self, room_description.
  destruct (decide (0 <= room s <= 3)%Z) as [Hr|Hr].
  - destruct (proj2 (room_dict_dom (room s)) Hr) as [d Hd].
    exists d. split; [exact Hd|]. now rewrite Hd.
  - destruct (room_dict !! room s) as [d|] eqn:Hd; [|reflexivity].
    destruct Hr. apply room_dict_dom. now exists d.
Qed.

Example greet_after_move :
  output_buffer (final ((handle_line (lit "move west") ;; greet) (__init__ 50000)))
  = lit "Welcome to Realms of Venture! You are in the room with the green wallpaper".
Proof. reflexivity. Qed.

(* ===================================================================== *)
(** ** More on the router *)
(* ===================================================================== *)

(** A word that is none of the three commands is not in the table. *)
Lemma routing_dict_None (command : list N) :
  command <> lit "quit" -> command <> lit "move" -> command <> lit "say" ->
  routing_dict !! command = None.
Proof.
  intros Hq Hm Hs. unfold routing_dict.
  rewrite !lookup_insert_ne by congruence. apply lookup_empty.
Qed.

(** X4.  A line whose first word is none of [quit], [move] and [say], the
    empty line among them, gets the reply ["Not a valid command."]; nothing
    else changes.  The words are compared as they are: [Quit] is no
    command. *)
Theorem unknown_command_rejected (s : Server) (command arguments : list N) :
  contains sp command = false ->
  command <> lit "quit" -> command <> lit "move" -> command <> lit "say" ->
  handle_line command s =
    Returns tt (set_output_buffer (lit "Not a valid command.")
                  (set_input_buffer command s)) /\
  handle_line (command ++ sp :: arguments) s =
    Returns tt (set_output_buffer (lit "Not a valid command.")
                  (set_input_buffer (command ++ sp :: arguments) s)).
Proof.
  intros Hc Hq Hm Hs. split.
  - rewrite handle_line_bare by assumption. unfold dispatch.
    now rewrite routing_dict_None.
  - rewrite handle_line_word_space by assumption. unfold dispatch.
    now rewrite routing_dict_None.
Qed.

Lemma unknown_command_rejected_witness :
  handle_line (lit "Quit") (__init__ 50000) =
    Returns tt (set_output_buffer (lit "Not a valid command.")
                  (set_input_buffer (lit "Quit") (__init__ 50000))) /\
  handle_line (lit "Quit" ++ sp :: lit "now") (__init__ 50000) =
    Returns tt (set_output_buffer (lit "Not a valid command.")
                  (set_input_buffer (lit "Quit" ++ sp :: lit "now")
                     (__init__ 50000))).
Proof.
  apply (unknown_command_rejected (__init__ 50000) (lit "Quit") (lit "now"));
    [reflexivity | discriminate | discriminate | discriminate].
Defined.

(** X5.  [route] raises nothing, whatever the instance and its input
    buffer: [pop(0)] always has a word to take and [move] only looks up
    rooms that have a description.  It leaves the input buffer, the sockets
    and the port as they are. *)
Theorem route_never_raises (s : Server) :
  exists s',
    route s = Returns tt s' /\
    input_buffer s' = input_buffer s /\
    socket s' = socket s /\
    client_connection s' = client_connection s /\
    port s' = port s.
Proof.
  destruct (route_returns s) as [s' [H [Hi [Hs [Hc [Hp _]]]]]].
  exists s'. auto.
Qed.

Example route_in_no_room :
  route (set_room 7 (set_input_buffer (lit "move north") (__init__ 50000)))
  = Returns tt
      (set_output_buffer (lit "Not a valid move! Please try again.")
         (set_room 7 (set_input_buffer (lit "move north") (__init__ 50000)))).
Proof. reflexivity. Qed.

Lemma dispatch_overwrites (command arguments v : list N) (s : Server) :
  exists s',
    dispatch command arguments s = Returns tt s' /\
    dispatch command arguments (set_output_buffer v s) = Returns tt s'.
Proof.
  unfold dispatch. destruct (routing_dict !! command) as [handler|] eqn:Hc.
  - apply routing_dict_Some in Hc as [[_ ->]|[[_ ->]|[_ ->]]].
    + eexists. split; reflexivity.
    + unfold move, bind, self. cbn [room set_output_buffer].
      destruct (valid_moves !! (room s, arguments)) as [r'|] eqn:Hm.
      * destruct (valid_moves_described _ _ _ Hm) as [d Hd].
        unfold assign, room_description. cbn [room set_room].
        rewrite Hd. eexists. split; reflexivity.
      * eexists. split; reflexivity.
    + eexists. split; reflexivity.
  - eexists. split; reflexivity.
Qed.

(** X6.  [route] overwrites the reply: what was in the output buffer before
    has no part in the outcome. *)
Theorem route_overwrites_output (s : Server) (v : list N) :
  exists s',
    route s = Returns tt s' /\
    route (set_output_buffer v s) = Returns tt s'.
Proof.
  unfold route, bind, self. cbn [input_buffer set_output_buffer].
  pose proof (split_not_nil sp (input_buffer s)).
  destruct (split sp (input_buffer s)) as [|w ws]; [easy|].
  apply dispatch_overwrites.
Qed.

(** What the three commands and the rejection leave in the instance. *)
Lemma dispatch_cases (command arguments : list N) (s : Server) :
  (command = lit "quit" /\
   dispatch command arguments s =
     Returns tt (set_output_buffer (lit "Goodbye!") (set_done true s))) \/
  (command = lit "say" /\
   dispatch command arguments s =
     Returns tt (set_output_buffer
                   (lit "You say, '" ++ arguments ++ lit "'") s)) \/
  (command = lit "move" /\
   exists r' descr,
     valid_moves !! (room s, arguments) = Some r' /\
     room_dict !! r' = Some descr /\
     dispatch command arguments s =
       Returns tt (set_output_buffer descr (set_room r' s))) \/
  (command = lit "move" /\
   valid_moves !! (room s, arguments) = None /\
   dispatch command arguments s =
     Returns tt (set_output_buffer
                   (lit "Not a valid move! Please try again.") s)) \/
  (command <> lit "quit" /\ command <> lit "say" /\ command <> lit "move" /\
   dispatch command arguments s =
     Returns tt (set_output_buffer (lit "Not a valid command.") s)).
Proof.
  unfold dispatch. destruct (routing_dict !! command) as [handler|] eqn:Hc.
  - apply routing_dict_Some in Hc as [[-> ->]|[[-> ->]|[-> ->]]].
    + left. split; reflexivity.
    + destruct (valid_moves !! (room s, arguments)) as [r'|] eqn:Hm.
      * right. right. left. split; [reflexivity|].
        destruct (move_legal s arguments r' Hm) as [descr [Hd Hmove]].
        exists r', descr. auto.
      * right. right. right. left. split; [reflexivity|].
        split; [reflexivity|]. now apply move_illegal.
    + right. left. split; reflexivity.
  - right. right. right. right.
    repeat split; try reflexivity; intros ->; discriminate.
Qed.

(** The input line as [route] reads it: a command and its argument. *)
Lemma handle_line_dispatch (line : list N) (s : Server) :
  exists command arguments,
    contains sp command = false /\
    (line = command /\ arguments = [] \/ line = command ++ sp :: arguments) /\
    handle_line line s =
      dispatch command arguments (set_input_buffer line s).
Proof.
  destruct (first_space line) as [w [Hw [->|[a ->]]]].
  - exists w, []. split; [exact Hw|]. split; [now left|].
    now apply handle_line_bare.
  - exists w, a. split; [exact Hw|]. split; [now right|].
    now apply handle_line_word_space.
Qed.

Lemma description_not_newline (r : Z) (d : list N) :
  room_dict !! r = Some d -> d <> [] /\ last d <> Some nl.
Proof.
  intros H.
  assert (0 <= r <= 3)%Z as Hr by (apply room_dict_dom; now exists d).
  assert (r = 0 \/ r = 1 \/ r = 2 \/ r = 3)%Z as [->|[->|[->| ->]]] by lia;
    vm_compute in H; injection H as <-; split; discriminate.
Qed.

(** X7.  The reply that [route] leaves is never empty and never ends in a
    newline, whatever the input line is, even one with newlines in it. *)
Theorem reply_not_newline_terminated (s : Server) :
  exists s',
    route s = Returns tt s' /\
    output_buffer s' <> [] /\
    last (output_buffer s') <> Some nl.
Proof.
  unfold route, bind, self.
  pose proof (split_not_nil sp (input_buffer s)).
  destruct (split sp (input_buffer s)) as [|w ws]; [easy|].
  cbn [pop0 ret fst snd].
  destruct (dispatch_cases w (join [sp] ws) s)
    as [[_ ->]|[[_ ->]|[[_ [r' [d [_ [Hd ->]]]]]|[[_ [_ ->]]|[_ [_ [_ ->]]]]]]];
    eexists; (split; [reflexivity|]); cbn [output_buffer set_output_buffer].
  - split; discriminate.
  - change (lit "'") with [39%N]. rewrite app_assoc, last_snoc.
    split; [|discriminate]. intros Habs. now apply app_eq_nil in Habs as [_ ?].
  - now apply (description_not_newline r').
  - split; discriminate.
  - split; discriminate.
Qed.

Example reply_with_inner_newline :
  output_buffer (final (handle_line (lit "say a" ++ [nl] ++ lit "b" ++ [nl])
                          (__init__ 50000)))
  = lit "You say, 'a" ++ [nl] ++ lit "b" ++ [nl] ++ lit "'".
Proof. reflexivity. Qed.

(** X8.  Only [quit] ends the session: when handling a line sets [done],
    the line is [quit], alone or followed by a space and anything. *)
Theorem only_quit_sets_done (line : list N) (s s' : Server) :
  handle_line line s = Returns tt s' ->
  done s = false -> done s' = true ->
  line = lit "quit" \/ exists argument, line = lit "quit " ++ argument.
Proof.
  intros H Hd Hd'.
  destruct (handle_line_dispatch line s) as [w [a [_ [Hl Hh]]]].
  rewrite Hh in H.
  destruct (dispatch_cases w a (set_input_buffer line s))
    as [[-> _]|[[_ E]|[[_ [r' [d [_ [_ E]]]]]|[[_ [_ E]]|[_ [_ [_ E]]]]]]].
  - destruct Hl as [[-> _]| ->]; [now left|right; now exists a].
  - rewrite E in H. injection H as <-. cbn in Hd'. congruence.
  - rewrite E in H. injection H as <-. cbn in Hd'. congruence.
  - rewrite E in H. injection H as <-. cbn in Hd'. congruence.
  - rewrite E in H. injection H as <-. cbn in Hd'. congruence.
Qed.

Lemma only_quit_sets_done_witness :
  lit "quit now" = lit "quit" \/
  exists argument, lit "quit now" = lit "quit " ++ argument.
Proof.
  apply (only_quit_sets_done (lit "quit now") (__init__ 50000)
           (final (handle_line (lit "quit now") (__init__ 50000))));
    reflexivity.
Defined.

(** X9.  Only a legal [move] changes the room: when handling a line leaves
    the client in another room, the line is [move], a space and a direction
    that [valid_moves] maps from the old room to the new one. *)
Theorem only_move_changes_room (line : list N) (s s' : Server) :
  handle_line line s = Returns tt s' ->
  room s' <> room s ->
  exists d, line = lit "move " ++ d /\
            valid_moves !! (room s, d) = Some (room s').
Proof.
  intros H Hr.
  destruct (handle_line_dispatch line s) as [w [a [_ [Hl Hh]]]].
  rewrite Hh in H.
  destruct (dispatch_cases w a (set_input_buffer line s))
    as [[_ E]|[[_ E]|[[-> [r' [d [Hm [_ E]]]]]|[[_ [_ E]]|[_ [_ [_ E]]]]]]];
    rewrite E in H; injection H as <-; cbn in Hr; try congruence.
  cbn [room set_input_buffer] in Hm.
  destruct Hl as [[-> ->]| ->].
  - apply valid_moves_Some in Hm. rewrite !elem_of_cons, elem_of_nil in Hm.
    repeat (destruct Hm as [[=]|Hm]). destruct Hm.
  - exists a. split; [reflexivity|]. exact Hm.
Qed.

Lemma only_move_changes_room_witness :
  exists d, lit "move north" = lit "move " ++ d /\
            valid_moves !! (0%Z, d) = Some 3%Z.
Proof.
  apply (only_move_changes_room (lit "move north") (__init__ 50000)
           (final (handle_line (lit "move north") (__init__ 50000))));
    [reflexivity | discriminate].
Defined.

(* ===================================================================== *)
(** ** The map of the rooms *)
(* ===================================================================== *)

Lemma handle_line_move (s : Server) (d : list N) :
  handle_line (lit "move " ++ d) s =
  move d (set_input_buffer (lit "move " ++ d) s).
Proof.
  change (lit "move " ++ d) with (lit "move" ++ sp :: d).
  now rewrite handle_line_word_space.
Qed.

(** A legal move, as a step of a session. *)
Lemma handle_line_move_legal (s : Server) (d : list N) (r' : Z) :
  valid_moves !! (room s, d) = Some r' ->
  exists s', handle_line (lit "move " ++ d) s = Returns tt s' /\
             room s' = r' /\ done s' = done s.
Proof.
  intros H. rewrite handle_line_move.
  destruct (move_legal (set_input_buffer (lit "move " ++ d) s) d r' H)
    as [descr [_ ->]].
  eexists. split; [reflexivity|]. split; reflexivity.
Qed.

(** X10.  Every move can be undone: after a legal move, the move in the
    opposite direction is legal and brings the client back. *)
Theorem move_then_opposite (s : Server) (d : list N) (r' : Z) :
  valid_moves !! (room s, d) = Some r' ->
  exists s1 s2,
    handle_line (lit "move " ++ d) s = Returns tt s1 /\
    room s1 = r' /\
    handle_line (lit "move " ++ opposite d) s1 = Returns tt s2 /\
    room s2 = room s.
Proof.
  intros H.
  destruct (handle_line_move_legal s d r' H) as [s1 [H1 [Hr1 _]]].
  assert (valid_moves !! (room s1, opposite d) = Some (room s)) as Hback.
  { rewrite Hr1. apply valid_moves_Some in H.
    rewrite !elem_of_cons, elem_of_nil in H.
    repeat (destruct H as [[= -> -> ->]|H]; [reflexivity|]). destruct H. }
  destruct (handle_line_move_legal s1 (opposite d) (room s) Hback)
    as [s2 [H2 [Hr2 _]]].
  exists s1, s2. auto.
Qed.

Lemma move_then_opposite_witness :
  exists s1 s2,
    handle_line (lit "move " ++ lit "west") (__init__ 50000) = Returns tt s1 /\
    room s1 = 1%Z /\
    handle_line (lit "move " ++ opposite (lit "west")) s1 = Returns tt s2 /\
    room s2 = 0%Z.
Proof.
  apply (move_then_opposite (__init__ 50000) (lit "west") 1%Z). reflexivity.
Defined.

Lemma handle_lines_app (a b : list (list N)) (s : Server) :
  handle_lines (a ++ b) s = (handle_lines a ;; handle_lines b) s.
Proof.
  revert s. induction a as [|line a IH]; intros s; [reflexivity|].
  cbn [app handle_lines]. unfold bind in *.
  destruct (handle_line line s) as [[] s1|e s1|s1|s1]; try reflexivity.
  apply IH.
Qed.

(** Room 0 is one move away at most. *)
Lemma to_start (s : Server) :
  (0 <= room s <= 3)%Z ->
  exists lines s',
    length lines <= 1 /\
    handle_lines lines s = Returns tt s' /\ room s' = 0%Z.
Proof.
  intros Hr.
  assert (room s = 0 \/ room s = 1 \/ room s = 2 \/ room s = 3)%Z
    as [H|[H|[H|H]]] by lia.
  - exists [], s. auto.
  - destruct (handle_line_move_legal s (lit "east") 0%Z) as [s' [Hl [Hr' _]]];
      [now rewrite H|].
    exists [lit "move " ++ lit "east"], s'. split; [reflexivity|].
    cbn [handle_lines]. unfold bind. rewrite Hl. auto.
  - destruct (handle_line_move_legal s (lit "west") 0%Z) as [s' [Hl [Hr' _]]];
      [now rewrite H|].
    exists [lit "move " ++ lit "west"], s'. split; [reflexivity|].
    cbn [handle_lines]. unfold bind. rewrite Hl. auto.
  - destruct (handle_line_move_legal s (lit "south") 0%Z) as [s' [Hl [Hr' _]]];
      [now rewrite H|].
    exists [lit "move " ++ lit "south"], s'. split; [reflexivity|].
    cbn [handle_lines]. unfold bind. rewrite Hl. auto.
Qed.

(** From room 0 every room is one move away at most. *)
Lemma from_start (s : Server) (r : Z) :
  room s = 0%Z -> (0 <= r <= 3)%Z ->
  exists lines s',
    length lines <= 1 /\
    handle_lines lines s = Returns tt s' /\ room s' = r.
Proof.
  intros H0 Hr.
  assert (r = 0 \/ r = 1 \/ r = 2 \/ r = 3)%Z as [->|[->|[->| ->]]] by lia.
  - exists [], s. auto.
  - destruct (handle_line_move_legal s (lit "west") 1%Z) as [s' [Hl [Hr' _]]];
      [now rewrite H0|].
    exists [lit "move " ++ lit "west"], s'. split; [reflexivity|].
    cbn [handle_lines]. unfold bind. rewrite Hl. auto.
  - destruct (handle_line_move_legal s (lit "east") 2%Z) as [s' [Hl [Hr' _]]];
      [now rewrite H0|].
    exists [lit "move " ++ lit "east"], s'. split; [reflexivity|].
    cbn [handle_lines]. unfold bind. rewrite Hl. auto.
  - destruct (handle_line_move_legal s (lit "north") 3%Z) as [s' [Hl [Hr' _]]];
      [now rewrite H0|].
    exists [lit "move " ++ lit "north"], s'. split; [reflexivity|].
    cbn [handle_lines]. unfold bind. rewrite Hl. auto.
Qed.

(** X11.  No room is out of reach: from any of the four rooms, two input
    lines at most bring the client to any other. *)
Theorem any_room_within_two_moves (s : Server) (r : Z) :
  (0 <= room s <= 3)%Z -> (0 <= r <= 3)%Z ->
  exists lines s',
    length lines <= 2 /\
    handle_lines lines s = Returns tt s' /\ room s' = r.
Proof.
  intros Hs Hr.
  destruct (to_start s Hs) as [l1 [s1 [Hn1 [H1 Hr1]]]].
  destruct (from_start s1 r Hr1 Hr) as [l2 [s2 [Hn2 [H2 Hr2]]]].
  exists (l1 ++ l2), s2. split; [rewrite length_app; lia|].
  split; [|exact Hr2].
  rewrite handle_lines_app. unfold bind. now rewrite H1.
Qed.

Lemma any_room_within_two_moves_witness :
  exists lines s',
    length lines <= 2 /\
    handle_lines lines (set_room 1 (__init__ 50000)) = Returns tt s' /\
    room s' = 3%Z.
Proof.
  apply (any_room_within_two_moves (set_room 1 (__init__ 50000)) 3%Z);
    cbn; lia.
Defined.

(* ===================================================================== *)
(** ** Sending *)
(* ===================================================================== *)

Lemma utf8_encode_app (a b : list N) :
  utf8_encode (a ++ b) =
  match utf8_encode a, utf8_encode b with
  | Some x, Some y => Some (x ++ y)
  | _, _ => None
  end.
Proof.
  induction a as [|c a IH]; cbn [app utf8_encode].
  - now destruct (utf8_encode b).
  - rewrite IH. destruct (utf8_encode_char c) as [x|]; [|reflexivity].
    destruct (utf8_encode a) as [xa|]; [|reflexivity].
    destruct (utf8_encode b) as [xb|]; [|reflexivity].
    now rewrite app_assoc.
Qed.

(** [push_output] with a connection and a reply that encodes. *)
Lemma push_output_sends (s : Server) (c : Connection) (b : list byte) :
  client_connection s = Some c ->
  utf8_encode (output_buffer s) = Some b ->
  push_output s =
    Returns tt
      (set_client_connection
         (Some (mkConnection (pending c)
                  (trace c ++ [Send (blit "OK! " ++ b ++ [x0a])]))) s).
Proof.
  intros Hc Hb. unfold push_output, bind, self, sendall, bind, self, or_raise.
  rewrite !utf8_encode_app, Hb.
  change (utf8_encode (lit "OK! ")) with (Some (blit "OK! ")).
  change (utf8_encode [nl]) with (Some [x0a]).
  cbn [ret]. now rewrite Hc.
Qed.

(** X12.  [push_output] frames the reply: with a connection and a reply that
    encodes, it sends once, and what it sends is [OK! ], the bytes of the
    reply and a newline.  The output buffer stays, no input is taken, and
    nothing else changes. *)
Theorem push_output_frames_reply (s : Server) (c : Connection) (b : list byte) :
  client_connection s = Some c ->
  utf8_encode (output_buffer s) = Some b ->
  exists s',
    push_output s = Returns tt s' /\
    trace_of s' = trace c ++ [Send (blit "OK! " ++ b ++ [x0a])] /\
    pending_of s' = pending c /\
    output_buffer s' = output_buffer s /\
    input_buffer s' = input_buffer s /\
    room s' = room s /\ done s' = done s /\ socket s' = socket s.
Proof.
  intros Hc Hb. eexists.
  split; [now apply (push_output_sends s c b)|].
  repeat split.
Qed.

Lemma push_output_frames_reply_witness :
  let c := mkConnection [blit "quit" ++ [x0a]] [] in
  let s := set_output_buffer [0xE9%N]
             (set_client_connection (Some c) (__init__ 50000)) in
  exists s',
    push_output s = Returns tt s' /\
    trace_of s' = trace c ++ [Send (blit "OK! " ++ [xc3; xa9] ++ [x0a])] /\
    pending_of s' = pending c /\
    output_buffer s' = output_buffer s /\
    input_buffer s' = input_buffer s /\
    room s' = room s /\ done s' = done s /\ socket s' = socket s.
Proof.
  cbv zeta.
  apply (push_output_frames_reply
           (set_output_buffer [0xE9%N]
              (set_client_connection
                 (Some (mkConnection [blit "quit" ++ [x0a]] []))
                 (__init__ 50000)))
           (mkConnection [blit "quit" ++ [x0a]] []) [xc3; xa9]);
    reflexivity.
Defined.

(** X13.  What [push_output] checks before it sends.  A reply that does not
    encode raises [UnicodeEncodeError]; a reply that encodes, without a
    connection, raises [AttributeError].  Either way nothing has been sent
    and the instance is as it was. *)
Theorem push_output_raises_unsent (s : Server) :
  match utf8_encode (output_buffer s), client_connection s with
  | None, _ => push_output s = Raises UnicodeEncodeError s
  | Some _, None => push_output s = Raises AttributeError s
  | Some _, Some _ => True
  end.
Proof.
  unfold push_output, bind, self, sendall, bind, self, or_raise.
  rewrite !utf8_encode_app.
  change (utf8_encode (lit "OK! ")) with (Some (blit "OK! ")).
  change (utf8_encode [nl]) with (Some [x0a]).
  destruct (utf8_encode (output_buffer s)) as [b|]; [|reflexivity].
  cbn [ret]. destruct (client_connection s) as [c|]; [exact I|reflexivity].
Qed.

Example push_output_surrogate :
  let s := set_output_buffer [0xD800%N]
             (set_client_connection (Some (mkConnection [] []))
                (__init__ 50000)) in
  push_output s = Raises UnicodeEncodeError s.
Proof. reflexivity. Qed.

(* ===================================================================== *)
(** ** Reading: the other ways [get_input] ends *)
(* ===================================================================== *)

Lemma set_client_connection_known (s : Server) (c : Connection) :
  client_connection s = Some c ->
  set_client_connection (Some (mkConnection (pending c) (trace c))) s = s.
Proof. destruct s, c. cbn. now intros ->. Qed.

(** The loop of [get_input] over chunks that decode and bring no newline. *)
Lemma get_input_loop_prefix (pre : list (list byte)) :
  forall (texts : list (list N)) (fuel : nat) (received : list N)
         (s : Server) (c : Connection) (rest : list (list byte)),
    client_connection s = Some c ->
    pending c = pre ++ rest ->
    Forall2 (fun b t => utf8_decode b = Some t) pre texts ->
    contains nl (received ++ concat texts) = false ->
    get_input_loop (length pre + fuel) received s =
    get_input_loop fuel (received ++ concat texts)
      (set_client_connection
         (Some (mkConnection rest (trace c ++ map Recv pre))) s).
Proof.
  induction pre as [|b pre IH]; intros texts fuel received s c rest Hc Hp Hdec Hno.
  - apply Forall2_nil_inv_l in Hdec as ->. cbn [concat app length map plus] in *.
    rewrite !app_nil_r, <- Hp. now rewrite set_client_connection_known.
  - apply Forall2_cons_inv_l in Hdec as [t [texts' [Ht [Hdec ->]]]].
    cbn [concat length plus] in *. cbn [get_input_loop].
    rewrite contains_app in Hno. apply orb_false_elim in Hno as [Hno1 Hno2].
    rewrite Hno1.
    unfold bind at 1. unfold recv, bind, self, or_raise. rewrite Hc. cbn [ret].
    rewrite Hp. cbn [app assign ret]. rewrite Ht. cbn [ret].
    rewrite (IH texts' fuel (received ++ t) _
               (mkConnection (pre ++ rest) (trace c ++ [Recv b])) rest);
      try reflexivity; try assumption.
    + cbn [trace map]. now rewrite <- !app_assoc.
    + now rewrite <- app_assoc, contains_app, Hno1.
Qed.

(** X14.  A client that stops before it has sent a newline: when every
    chunk decodes and none has a newline, [get_input] takes them all and
    never returns; the input buffer keeps its old content. *)
Theorem get_input_hangs_without_newline
    (s : Server) (c : Connection) (texts : list (list N)) :
  client_connection s = Some c ->
  Forall2 (fun b t => utf8_decode b = Some t) (pending c) texts ->
  contains nl (concat texts) = false ->
  get_input s =
    Hangs (set_client_connection
             (Some (mkConnection [] (trace c ++ map Recv (pending c)))) s).
Proof.
  intros Hc Hdec Hno. unfold get_input, bind, self.
  unfold pending_count. rewrite Hc.
  replace (S (length (pending c))) with (length (pending c) + 1) by lia.
  rewrite (get_input_loop_prefix (pending c) texts 1 [] s c []);
    try assumption; [|now rewrite app_nil_r].
  cbn [app get_input_loop]. rewrite Hno.
  unfold bind, recv, bind, self, or_raise. reflexivity.
Qed.

Lemma get_input_hangs_without_newline_witness :
  let c := mkConnection [blit "move no"; blit "rth"] [] in
  let s := set_client_connection (Some c) (__init__ 50000) in
  get_input s =
    Hangs (set_client_connection
             (Some (mkConnection [] (trace c ++ map Recv (pending c)))) s).
Proof.
  cbv zeta.
  apply (get_input_hangs_without_newline
           (set_client_connection
              (Some (mkConnection [blit "move no"; blit "rth"] []))
              (__init__ 50000))
           (mkConnection [blit "move no"; blit "rth"] [])
           [lit "move no"; lit "rth"]);
    [reflexivity | repeat constructor | reflexivity].
Defined.

(** X15.  Bytes that are no UTF-8: when the chunks before decode and bring
    no newline and the next one does not decode, [get_input] raises
    [UnicodeDecodeError]; the chunks up to that one are taken and the input
    buffer keeps its old content. *)
Theorem get_input_raises_on_bad_chunk
    (s : Server) (c : Connection) (pre : list (list byte))
    (texts : list (list N)) (bad : list byte) (rest : list (list byte)) :
  client_connection s = Some c ->
  pending c = pre ++ bad :: rest ->
  Forall2 (fun b t => utf8_decode b = Some t) pre texts ->
  contains nl (concat texts) = false ->
  utf8_decode bad = None ->
  get_input s =
    Raises UnicodeDecodeError
      (set_client_connection
         (Some (mkConnection rest (trace c ++ map Recv (pre ++ [bad])))) s).
Proof.
  intros Hc Hp Hdec Hno Hbad. unfold get_input, bind, self.
  unfold pending_count. rewrite Hc, Hp.
  replace (S (length (pre ++ bad :: rest)))
    with (length pre + S (S (length rest)))
    by (rewrite length_app; cbn; lia).
  rewrite (get_input_loop_prefix pre texts _ [] s c (bad :: rest));
    try assumption.
  cbn [app get_input_loop]. rewrite Hno.
  unfold bind, recv, bind, self, or_raise.
  cbn [client_connection set_client_connection pending ret assign].
  rewrite Hbad. cbn [raise trace]. rewrite map_app, app_assoc. reflexivity.
Qed.

Lemma get_input_raises_on_bad_chunk_witness :
  let c := mkConnection [blit "say caf" ++ [xc3]; [xa9; x0a]] [] in
  let s := set_client_connection (Some c) (__init__ 50000) in
  get_input s =
    Raises UnicodeDecodeError
      (set_client_connection
         (Some (mkConnection [[xa9; x0a]]
                  (trace c ++ map Recv ([] ++ [blit "say caf" ++ [xc3]])))) s).
Proof.
  cbv zeta.
  apply (get_input_raises_on_bad_chunk
           (set_client_connection
              (Some (mkConnection [blit "say caf" ++ [xc3]; [xa9; x0a]] []))
              (__init__ 50000))
           (mkConnection [blit "say caf" ++ [xc3]; [xa9; x0a]] [])
           [] [] (blit "say caf" ++ [xc3]) [[xa9; x0a]]);
    try reflexivity.
  constructor.
Defined.

(** Where [get_input] leaves the instance: with another connection, and
    another input buffer when it returns. *)
Lemma get_input_final (s : Server) :
  match get_input s with
  | Returns _ s' =>
      exists line conn,
        s' = set_input_buffer line (set_client_connection conn s)
  | Raises _ s' | Hangs s' | OutOfFuel s' =>
      exists conn, s' = set_client_connection conn s
  end.
Proof.
  destruct (get_input_loop_inv (S (pending_count s)) [] s)
    as [_ [taken [_ [_ [Hfin _]]]]]; [lia|].
  unfold get_input, bind, self.
  destruct (get_input_loop (S (pending_count s)) [] s) as [r s1|e s1|s1|s1];
    cbn [final assign] in *; rewrite Hfin; eauto.
Qed.

(** X16.  [get_input] touches the input buffer and the connection only,
    and the input buffer only when it returns. *)
Theorem get_input_frame (s : Server) :
  output_buffer (final (get_input s)) = output_buffer s /\
  done (final (get_input s)) = done s /\
  room (final (get_input s)) = room s /\
  socket (final (get_input s)) = socket s /\
  port (final (get_input s)) = port s /\
  match get_input s with
  | Returns _ _ => True
  | Raises _ s' | Hangs s' | OutOfFuel s' => input_buffer s' = input_buffer s
  end.
Proof.
  pose proof (get_input_final s) as H.
  destruct (get_input s) as [u s'|e s'|s'|s']; cbn [final].
  - destruct H as [line [conn ->]]. repeat split.
  - destruct H as [conn ->]. repeat split.
  - destruct H as [conn ->]. repeat split.
  - destruct H as [conn ->]. repeat split.
Qed.

(* ===================================================================== *)
(** ** What decodes, encodes *)
(* ===================================================================== *)

Lemma N_lor_lt (a b n : N) :
  (a < 2 ^ n -> b < 2 ^ n -> N.lor a b < 2 ^ n)%N.
Proof.
  intros Ha Hb.
  destruct (N.eq_dec a 0%N) as [->|Ha0]; [now rewrite N.lor_0_l|].
  destruct (N.eq_dec b 0%N) as [->|Hb0]; [now rewrite N.lor_0_r|].
  assert (N.lor a b <> 0)%N as Hab
      by (intros H; apply N.lor_eq_0_iff in H as [? ?]; contradiction).
  apply N.log2_lt_pow2; [lia|]. rewrite N.log2_lor.
  apply N.log2_lt_pow2 in Ha; [|lia]. apply N.log2_lt_pow2 in Hb; [|lia]. lia.
Qed.

Lemma low6_lt (b : byte) : (low6 b < 2 ^ 6)%N.
Proof.
  unfold low6. change 0x3F%N with (N.ones 6). rewrite N.land_ones.
  apply N.mod_lt. discriminate.
Qed.

Lemma masked_shift_lt (x m k : N) :
  (N.shiftl (N.land x (N.ones m)) k < 2 ^ (m + k))%N.
Proof.
  rewrite N.shiftl_mul_pow2, N.land_ones, N.pow_add_r.
  apply N.mul_lt_mono_pos_r; [apply N.neq_0_lt_0, N.pow_nonzero; discriminate|].
  apply N.mod_lt, N.pow_nonzero. discriminate.
Qed.

Lemma pow2_lt_mono (x a b : N) : (x < 2 ^ a -> a <= b -> x < 2 ^ b)%N.
Proof.
  intros Hx Hab. eapply N.lt_le_trans; [exact Hx|].
  apply N.pow_le_mono_r; [discriminate|exact Hab].
Qed.

Lemma encodable_below (c : N) :
  (c < 0xD800)%N -> encodable c = true.
Proof.
  intros H. unfold encodable.
  apply andb_true_intro. split; [apply N.leb_le; lia|].
  apply negb_true_iff, andb_false_intro1, N.leb_gt. lia.
Qed.

(** One step of the decoder: the character that starts the bytes is
    encodable. *)
Lemma utf8_decode_cons (b0 : byte) (r0 : list byte) (s : list N) :
  utf8_decode (b0 :: r0) = Some s ->
  exists c r t,
    length r <= length r0 /\ utf8_decode r = Some t /\
    s = c :: t /\ encodable c = true.
Proof.
  cbn [utf8_decode]. cbv zeta.
  destruct (Byte.to_N b0 <? 0x80)%N eqn:H1.
  { intros H. apply fmap_Some in H as [t [Ht ->]].
    exists (Byte.to_N b0), r0, t. repeat split; try assumption; try lia.
    apply encodable_below. apply N.ltb_lt in H1. lia. }
  destruct (Byte.to_N b0 <? 0xC0)%N; [discriminate|].
  destruct (Byte.to_N b0 <? 0xE0)%N.
  { destruct r0 as [|b1 r1]; [discriminate|].
    destruct (is_cont b1 && _) eqn:Hc; [|discriminate].
    intros H. apply fmap_Some in H as [t [Ht ->]].
    eexists _, r1, t. repeat split; try eassumption; [cbn; lia|].
    apply encodable_below.
    apply (N.lt_le_trans _ (2 ^ 11)); [|discriminate].
    apply N_lor_lt.
    - change 0x1F%N with (N.ones 5). apply (masked_shift_lt _ 5 6).
    - apply (pow2_lt_mono _ 6); [apply low6_lt|discriminate]. }
  destruct (Byte.to_N b0 <? 0xF0)%N.
  { destruct r0 as [|b1 [|b2 r2]]; try discriminate.
    match goal with |- context [if ?g then _ else _] => destruct g eqn:Hc end;
      [|discriminate].
    intros H. apply fmap_Some in H as [t [Ht ->]].
    eexists _, r2, t. repeat split; try eassumption; [cbn; lia|].
    apply andb_prop in Hc as [Hc Hsur]. unfold encodable. rewrite Hsur.
    rewrite andb_true_r. apply N.leb_le.
    apply N.lt_le_incl, (N.lt_le_trans _ (2 ^ 16)); [|discriminate].
    apply N_lor_lt; [|apply N_lor_lt].
    - change 0x0F%N with (N.ones 4). apply (masked_shift_lt _ 4 12).
    - rewrite N.shiftl_mul_pow2.
      apply (N.lt_le_trans _ (2 ^ 6 * 2 ^ 6)); [|discriminate].
      apply N.mul_lt_mono_pos_r; [reflexivity|apply low6_lt].
    - apply (pow2_lt_mono _ 6); [apply low6_lt|discriminate]. }
  destruct (Byte.to_N b0 <? 0xF8)%N; [|discriminate].
  destruct r0 as [|b1 [|b2 [|b3 r3]]]; try discriminate.
  match goal with |- context [if ?g then _ else _] => destruct g eqn:Hc end;
    [|discriminate].
  intros H. apply fmap_Some in H as [t [Ht ->]].
  eexists _, r3, t. repeat split; try eassumption; [cbn; lia|].
  apply andb_prop in Hc as [Hc Hmax]. apply andb_prop in Hc as [_ Hmin].
  unfold encodable. rewrite Hmax. cbn [andb].
  apply negb_true_iff, andb_false_intro2, N.leb_gt.
  apply N.leb_le in Hmin. lia.
Qed.

(** What [decode('utf8')] returns, [encode('utf8')] accepts. *)
Lemma utf8_decode_encodable (n : nat) :
  forall (bs : list byte) (s : list N),
    length bs <= n ->
    utf8_decode bs = Some s -> forallb encodable s = true.
Proof.
  induction n as [|n IH]; intros bs s Hn H.
  - destruct bs; [|cbn in Hn; lia]. now injection H as <-.
  - destruct bs as [|b0 r0]; [now injection H as <-|].
    apply utf8_decode_cons in H as [c [r [t [Hr [Ht [-> Hc]]]]]].
    cbn [forallb]. rewrite Hc. cbn [andb].
    apply (IH r t); [cbn in Hn; lia|exact Ht].
Qed.

Lemma utf8_encode_char_encodable (c : N) :
  encodable c = true -> is_Some (utf8_encode_char c).
Proof.
  unfold encodable, utf8_encode_char. intros H.
  apply andb_prop in H as [Hmax Hsur]. apply negb_true_iff in Hsur.
  rewrite Hsur, Hmax.
  destruct (c <? 0x80)%N; [eauto|]. destruct (c <? 0x800)%N; [eauto|].
  destruct (c <? 0x10000)%N; eauto.
Qed.

Lemma utf8_encode_encodable (s : list N) :
  forallb encodable s = true -> is_Some (utf8_encode s).
Proof.
  induction s as [|c t IH]; [eauto|]. cbn [forallb utf8_encode]. intros H.
  apply andb_prop in H as [Hc Ht].
  destruct (utf8_encode_char_encodable c Hc) as [b ->].
  destruct (IH Ht) as [bs ->]. eauto.
Qed.

(* ===================================================================== *)
(** ** A turn of the loop of [serve] *)
(* ===================================================================== *)

Lemma strip_forallb (P : N -> bool) (s : list N) :
  forallb P s = true -> forallb P (strip s) = true.
Proof.
  destruct (strip_decompose s) as [before [after [Hs _]]]. intros H.
  rewrite Hs, !forallb_app in H.
  apply andb_prop in H as [_ H]. now apply andb_prop in H as [H _].
Qed.

Lemma route_as_handle_line (s : Server) :
  route s = handle_line (input_buffer s) s.
Proof. now destruct s. Qed.

Lemma description_encodable (r : Z) (d : list N) :
  room_dict !! r = Some d -> forallb encodable d = true.
Proof.
  intros H.
  assert (0 <= r <= 3)%Z as Hr by (apply room_dict_dom; now exists d).
  assert (r = 0 \/ r = 1 \/ r = 2 \/ r = 3)%Z as [->|[->|[->| ->]]] by lia;
    vm_compute in H; injection H as <-; reflexivity.
Qed.

(** [route] in the loop of [serve]: the reply to a line that encodes does
    encode, and [done] is set with the reply [Goodbye!] only. *)
Lemma route_for_serve (s : Server) :
  forallb encodable (input_buffer s) = true ->
  exists s',
    route s = Returns tt s' /\
    client_connection s' = client_connection s /\
    socket s' = socket s /\
    forallb encodable (output_buffer s') = true /\
    (done s = false -> done s' = true -> output_buffer s' = lit "Goodbye!").
Proof.
  intros Henc. rewrite route_as_handle_line.
  destruct (handle_line_dispatch (input_buffer s) s) as [w [a [_ [Hl ->]]]].
  assert (forallb encodable a = true) as Ha.
  { destruct Hl as [[_ ->]|Hl]; [reflexivity|].
    rewrite Hl, forallb_app in Henc. apply andb_prop in Henc as [_ Henc].
    cbn [forallb] in Henc. now apply andb_prop in Henc as [_ ?]. }
  destruct (dispatch_cases w a (set_input_buffer (input_buffer s) s))
    as [[_ ->]|[[_ ->]|[[_ [r' [d [_ [Hd ->]]]]]|[[_ [_ ->]]|[_ [_ [_ ->]]]]]]];
    eexists; (split; [reflexivity|]);
    (split; [reflexivity|]); (split; [reflexivity|]);
    cbn [output_buffer done set_output_buffer set_done set_room
         set_input_buffer];
    (split; [|try reflexivity; congruence]).
  - reflexivity.
  - rewrite !forallb_app, Ha. reflexivity.
  - now apply (description_encodable r').
  - reflexivity.
  - reflexivity.
Qed.

Lemma get_input_loop_kinds (fuel : nat) :
  forall (received : list N) (s : Server),
    is_Some (client_connection s) ->
    forallb encodable received = true ->
    match get_input_loop fuel received s with
    | Returns r _ => forallb encodable r = true
    | Raises e _ => e = UnicodeDecodeError
    | Hangs s' => pending_of s' = []
    | OutOfFuel _ => True
    end.
Proof.
  induction fuel as [|fuel IH]; intros received s [c Hc] Henc;
    cbn [get_input_loop]; destruct (contains nl received); try exact Henc;
    [exact I|].
  unfold bind at 1. unfold recv, bind, self, or_raise. rewrite Hc. cbn [ret].
  destruct (pending c) as [|b rest] eqn:Hp.
  { unfold pending_of. now rewrite Hc. }
  cbn [assign ret]. destruct (utf8_decode b) as [t|] eqn:Hd; [|reflexivity].
  cbn [ret]. apply IH; [eexists; reflexivity|].
  rewrite forallb_app, Henc.
  now apply (utf8_decode_encodable (length b) b t).
Qed.

(** [get_input] in the loop of [serve], where there is a connection. *)
Lemma get_input_for_serve (s : Server) (c : Connection) :
  client_connection s = Some c ->
  match get_input s with
  | Returns _ s1 =>
      forallb encodable (input_buffer s1) = true /\
      done s1 = done s /\ socket s1 = socket s /\
      exists c1 taken,
        client_connection s1 = Some c1 /\ taken <> [] /\
        pending c = taken ++ pending c1 /\
        trace c1 = trace c ++ map Recv taken
  | Raises e s1 =>
      e = UnicodeDecodeError /\
      exists taken, trace_of s1 = trace c ++ map Recv taken
  | Hangs s1 =>
      pending_of s1 = [] /\ done s1 = done s /\
      exists taken, trace_of s1 = trace c ++ map Recv taken
  | OutOfFuel _ => False
  end.
Proof.
  intros Hc.
  destruct (get_input_inv s) as [Hof [taken [Hpen [Htr [_ [Hdone Hne]]]]]].
  assert (socket (final (get_input s)) = socket s) as Hsock.
  { pose proof (get_input_final s) as Hf.
    destruct (get_input s) as [u sf|e sf|sf|sf]; cbn [final];
      [destruct Hf as [line [conn ->]]|destruct Hf as [conn ->]..];
      reflexivity. }
  pose proof (get_input_loop_kinds (S (pending_count s)) [] s
                (ex_intro _ c Hc) eq_refl) as Hk.
  unfold trace_of at 2 in Htr. unfold pending_of at 1 in Hpen.
  rewrite Hc in Htr, Hpen.
  unfold get_input, bind, self in *.
  destruct (get_input_loop (S (pending_count s)) [] s) as [r s1|e s1|s1|s1];
    cbn [final assign] in *.
  - split; [now apply strip_forallb|]. split; [exact Hdone|].
    split; [exact Hsock|].
    specialize (Hne _ eq_refl).
    unfold trace_of, pending_of in *. cbn [client_connection set_input_buffer] in *.
    destruct (client_connection s1) as [c1|].
    + exists c1, taken. auto.
    + destruct taken; [easy|]. symmetry in Htr.
      now apply app_eq_nil in Htr as [_ ?].
  - split; [exact Hk|]. now exists taken.
  - split; [exact Hk|]. split; [exact Hdone|]. now exists taken.
  - now apply (Hof s1).
Qed.

(** The shape of what the loop of [serve] does to the trace, and how the
    loop can end. *)
Lemma serve_loop_shape (fuel : nat) :
  forall (s : Server) (c : Connection),
    client_connection s = Some c ->
    pending_count s < fuel ->
    exists body tail,
      trace_of (final (serve_loop fuel s)) = trace c ++ body ++ map Recv tail /\
      turns body /\
      match serve_loop fuel s with
      | Returns _ s' =>
          tail = [] /\ done s' = true /\ socket s' = socket s /\
          is_Some (client_connection s') /\
          (done s = false ->
           exists body', body = body' ++ [Send (blit "OK! Goodbye!" ++ [x0a])])
      | Raises e _ => e = UnicodeDecodeError
      | Hangs s' => pending_of s' = [] /\ done s' = false
      | OutOfFuel _ => False
      end.
Proof.
  induction fuel as [|fuel IH]; intros s c Hc Hfuel; [lia|].
  rewrite serve_loop_S. destruct (done s) eqn:Hdone.
  { exists [], []. cbn [final app map]. unfold trace_of. rewrite Hc, app_nil_r.
    split; [reflexivity|]. split; [constructor|].
    repeat split; try assumption; [eauto|discriminate]. }
  pose proof (get_input_for_serve s c Hc) as Hg.
  destruct (get_input s) as [[] s1|e s1|s1|s1]; cbn [final].
  2:{ destruct Hg as [-> [taken Htr]]. exists [], taken.
      split; [exact Htr|]. split; [constructor|reflexivity]. }
  2:{ destruct Hg as [Hp [Hd [taken Htr]]]. exists [], taken.
      split; [exact Htr|]. split; [constructor|]. split; congruence. }
  2:{ destruct Hg. }
  destruct Hg as [Henc [Hd1 [Hs1 [c1 [taken [Hc1 [Hne [Hpen Htr]]]]]]]].
  destruct (route_for_serve s1 Henc) as [s2 [Hr [Hc2 [Hs2 [Henc2 Hbye]]]]].
  rewrite Hr. rewrite Hc1 in Hc2.
  destruct (utf8_encode_encodable _ Henc2) as [b0 Hb0].
  rewrite (push_output_sends s2 c1 b0 Hc2 Hb0).
  set (c3 := mkConnection (pending c1)
               (trace c1 ++ [Send (blit "OK! " ++ b0 ++ [x0a])])).
  set (s3 := set_client_connection (Some c3) s2).
  destruct (IH s3 c3 eq_refl) as [body' [tail' [Htr' [Hturns Hends]]]].
  { unfold pending_count in *. cbn. rewrite Hc in Hfuel. rewrite Hpen in Hfuel.
    rewrite length_app in Hfuel. destruct taken; [easy|]. cbn in Hfuel. lia. }
  exists (map Recv taken ++ Send (blit "OK! " ++ b0 ++ [x0a]) :: body'), tail'.
  split.
  { rewrite Htr'. cbn [c3 trace]. rewrite Htr.
    rewrite <- !app_assoc. reflexivity. }
  split; [now constructor|].
  destruct (serve_loop fuel s3) as [[] s'|e s'|s'|s'] eqn:Hl; try exact Hends.
  destruct Hends as [-> [Hd' [Hs' [Hc' Hlast]]]].
  split; [reflexivity|]. split; [exact Hd'|].
  split; [rewrite Hs'; cbn; congruence|]. split; [exact Hc'|]. intros _.
  destruct (done s3) eqn:Hd3.
  - rewrite (serve_loop_done fuel s3 Hd3) in Hl. injection Hl as <-.
    cbn [final map] in Htr'. rewrite app_nil_r in Htr'.
    change (trace_of s3) with (trace c3) in Htr'.
    rewrite <- (app_nil_r (trace c3)) in Htr' at 1.
    apply app_inv_head in Htr'. subst body'.
    exists (map Recv taken). f_equal. f_equal. f_equal.
    change (done s3) with (done s2) in Hd3.
    rewrite Hbye in Hb0 by congruence. now injection Hb0 as <-.
  - destruct (Hlast eq_refl) as [body'' ->].
    exists (map Recv taken ++ Send (blit "OK! " ++ b0 ++ [x0a]) :: body'').
    now rewrite <- app_assoc.
Qed.

(* ===================================================================== *)
(** ** A session from the first byte to the last *)
(* ===================================================================== *)

(** All of [serve] at once: the trace and the ways to end. *)
Lemma serve_shape (incoming : list (list byte)) (port : Z) :
  exists body tail,
    trace_of (final (serve incoming (__init__ port))) =
      Send greeting :: body ++ tail /\
    turns body /\
    match serve incoming (__init__ port) with
    | Returns _ s' =>
        tail = [Close] /\ done s' = true /\ socket s' = Some Closed /\
        exists body', body = body' ++ [Send (blit "OK! Goodbye!" ++ [x0a])]
    | Raises e _ =>
        e = UnicodeDecodeError /\ exists taken, tail = map Recv taken
    | Hangs s' =>
        pending_of s' = [] /\ done s' = false /\
        exists taken, tail = map Recv taken
    | OutOfFuel _ => False
    end.
Proof.
  pose proof (serve_prelude port incoming) as Hpre.
  set (s1 := set_client_connection _ _) in Hpre.
  rewrite (serve_after_prelude _ _ _ Hpre).
  destruct (serve_loop_shape (S (length incoming)) s1
              (mkConnection incoming [Send greeting]) eq_refl)
    as [body [tail [Htr [Hturns Hends]]]]; [cbn; lia|].
  cbn [trace app] in Htr. unfold bind at 1 3.
  destruct (serve_loop (S (length incoming)) s1) as [[] s2|e s2|s2|s2];
    cbn [final] in *.
  - destruct Hends as [-> [Hd [Hs [[c2 Hc2] Hlast]]]].
    specialize (Hlast eq_refl). cbn [map] in Htr. rewrite app_nil_r in Htr.
    unfold trace_of in Htr. rewrite Hc2 in Htr.
    change (socket s1) with (Some (Listening ("127.0.0.1"%string, port))) in Hs.
    exists body, [Close].
    unfold close_connection, close_socket, bind, self, or_raise, assign, ret.
    rewrite Hc2. cbn [socket set_client_connection]. rewrite Hs.
    cbn [final]. unfold trace_of. cbn [client_connection set_socket
                                        set_client_connection trace].
    rewrite Htr.
    split; [reflexivity|]. split; [exact Hturns|]. split; [reflexivity|].
    split; [exact Hd|]. split; [reflexivity|exact Hlast].
  - exists body, (map Recv tail).
    split; [exact Htr|]. split; [exact Hturns|]. split; [exact Hends|].
    now exists tail.
  - destruct Hends as [Hp Hd]. exists body, (map Recv tail).
    split; [exact Htr|]. split; [exact Hturns|]. split; [exact Hp|].
    split; [exact Hd|]. now exists tail.
  - destruct Hends.
Qed.

(** X17.  When [serve] returns, the client has quit: [done] is set, the last
    message sent is [OK! Goodbye!], the connection has been closed after it
    and the listening socket is closed. *)
Theorem serve_returns_after_goodbye
    (incoming : list (list byte)) (port : Z) (s' : Server) :
  serve incoming (__init__ port) = Returns tt s' ->
  done s' = true /\
  socket s' = Some Closed /\
  exists body,
    trace_of s' =
      Send greeting :: body ++ [Send (blit "OK! Goodbye!" ++ [x0a]); Close].
Proof.
  intros H. destruct (serve_shape incoming port) as [body [tail [Htr [_ Hends]]]].
  rewrite H in Htr, Hends. cbn [final] in Htr.
  destruct Hends as [-> [Hd [Hs [body' ->]]]].
  split; [exact Hd|]. split; [exact Hs|].
  exists body'. now rewrite Htr, <- app_assoc.
Qed.

Lemma serve_returns_after_goodbye_witness :
  let s' := final (serve [blit "say hi" ++ [x0a]; blit "quit" ++ [x0a]]
                     (__init__ 50000)) in
  done s' = true /\
  socket s' = Some Closed /\
  exists body,
    trace_of s' =
      Send greeting :: body ++ [Send (blit "OK! Goodbye!" ++ [x0a]); Close].
Proof.
  cbv zeta.
  apply (serve_returns_after_goodbye
           [blit "say hi" ++ [x0a]; blit "quit" ++ [x0a]] 50000).
  vm_compute. reflexivity.
Defined.

(** X18.  One reply for each input, and none unasked but the greeting: the
    trace of a session is the greeting, then whole turns, each of one or
    more [recv] and one [sendall], and at the end either the [close] or the
    [recv]s of a turn that had no end. *)
Theorem serve_one_reply_per_turn (incoming : list (list byte)) (port : Z) :
  exists body tail,
    trace_of (final (serve incoming (__init__ port))) =
      Send greeting :: body ++ tail /\
    turns body /\
    (tail = [Close] \/ exists taken, tail = map Recv taken).
Proof.
  destruct (serve_shape incoming port) as [body [tail [Htr [Hturns Hends]]]].
  exists body, tail. split; [exact Htr|]. split; [exact Hturns|].
  destruct (serve incoming (__init__ port)) as [[] s'|e s'|s'|s'].
  - left. apply Hends.
  - right. apply Hends.
  - right. apply Hends.
  - destruct Hends.
Qed.

(** X19.  How a session can end.  When [serve] returns, [done] is set.
    When it raises, the exception is none of [KeyError], [IndexError],
    [AttributeError] and [UnicodeEncodeError]: the room lookups, [pop(0)],
    the sockets of the instance and the encoding of a reply do not fail in a
    session.  When it waits for ever in [recv], the client has not quit and
    all that was received has been taken.  The bound on the loop is never
    reached. *)
Theorem serve_ends (incoming : list (list byte)) (port : Z) :
  match serve incoming (__init__ port) with
  | Returns _ s' => done s' = true
  | Raises e _ =>
      e <> KeyError /\ e <> IndexError /\ e <> AttributeError /\
      e <> UnicodeEncodeError
  | Hangs s' => pending_of s' = [] /\ done s' = false
  | OutOfFuel _ => False
  end.
Proof.
  destruct (serve_shape incoming port) as [body [tail [_ [_ Hends]]]].
  destruct (serve incoming (__init__ port)) as [[] s'|e s'|s'|s'].
  - apply Hends.
  - destruct Hends as [-> _]. repeat split; discriminate.
  - split; apply Hends.
  - exact Hends.
Qed.

(** What comes after [quit] is not read. *)
Example serve_ignores_input_after_quit :
  pending_of (final (serve [blit "quit" ++ [x0a]; blit "move north" ++ [x0a]]
                       (__init__ 50000)))
  = [blit "move north" ++ [x0a]].
Proof. vm_compute. reflexivity. Qed.

(* ===================================================================== *)
(** ** UTF-8: bytes, text and bytes again *)
(* ===================================================================== *)

Lemma byte_of_to_N (b : byte) : byte_of_N (Byte.to_N b) = b.
Proof.
  unfold byte_of_N. pose proof (Byte.to_N_bounded b) as Hb.
  rewrite N.mod_small by lia. now rewrite Byte.of_to_N.
Qed.

(** Bits that do not overlap add up. *)
Lemma lor_shiftl_add (a k b : N) :
  (b < 2 ^ k -> N.lor (N.shiftl a k) b = a * 2 ^ k + b)%N.
Proof.
  intros Hb.
  assert (N.land (N.shiftl a k) b = 0%N) as Hdisj.
  { apply N.bits_inj. intros i. rewrite N.land_spec, N.bits_0.
    destruct (N.lt_ge_cases i k) as [Hi|Hi].
    - now rewrite N.shiftl_spec_low.
    - destruct (N.eq_dec b 0%N) as [->|Hb0];
        [now rewrite N.bits_0, andb_false_r|].
      rewrite (N.bits_above_log2 b i), andb_false_r; [reflexivity|].
      apply N.log2_lt_pow2 in Hb; lia. }
  rewrite <- N.lxor_lor by exact Hdisj.
  rewrite <- N.add_nocarry_lxor by exact Hdisj.
  now rewrite N.shiftl_mul_pow2.
Qed.

(** The six low bits of a continuation byte are all it carries. *)
Lemma is_cont_to_N (b : byte) :
  is_cont b = true -> Byte.to_N b = (128 + low6 b)%N.
Proof. destruct b; intros H; try discriminate H; reflexivity. Qed.

Lemma cont_byte_field (c k : N) (b : byte) :
  is_cont b = true ->
  N.land (N.shiftr c (6 * k)) 0x3F = low6 b ->
  cont_byte c k = b.
Proof.
  intros Hc Hf. unfold cont_byte. rewrite Hf.
  change 0x80%N with (N.shiftl 2 6).
  rewrite lor_shiftl_add by apply low6_lt.
  change (2 * 2 ^ 6)%N with 128%N. rewrite <- is_cont_to_N by exact Hc.
  apply byte_of_to_N.
Qed.

(** The field of six bits at position [k] of a sum of fields. *)
Lemma field_of_sum (hi f lo k : N) :
  (f < 64 -> lo < 2 ^ k ->
   N.land (N.shiftr (hi * (64 * 2 ^ k) + f * 2 ^ k + lo) k) 0x3F = f)%N.
Proof.
  intros Hf Hlo. rewrite N.shiftr_div_pow2.
  change 0x3F%N with (N.ones 6). rewrite N.land_ones.
  assert (2 ^ k <> 0)%N as Hk by (apply N.pow_nonzero; discriminate).
  assert ((hi * (64 * 2 ^ k) + f * 2 ^ k + lo) / 2 ^ k = hi * 64 + f)%N as ->.
  { symmetry. apply (N.div_unique _ _ _ lo); [exact Hlo|]. lia. }
  symmetry. apply (N.mod_unique _ _ hi f); [exact Hf|]. change (2 ^ 6)%N with 64%N. lia.
Qed.

(** The bits of a lead byte above its payload. *)
Lemma lead_byte (b0 : byte) (base m : N) (k : N) (x : N) :
  (base = (base / 2 ^ k) * 2 ^ k ->
   base <= Byte.to_N b0 < base + 2 ^ k ->
   x = Byte.to_N b0 - base ->
   byte_of_N (N.lor base x) = b0)%N.
Proof.
  intros Hbase Hb ->. rewrite Hbase at 1.
  rewrite <- N.shiftl_mul_pow2, lor_shiftl_add by lia.
  rewrite <- Hbase. replace (base + (Byte.to_N b0 - base))%N with (Byte.to_N b0) by lia.
  apply byte_of_to_N.
Qed.

Lemma payload (n base k : N) :
  (base = (base / 2 ^ k) * 2 ^ k -> base <= n < base + 2 ^ k ->
   N.land n (N.ones k) = n - base)%N.
Proof.
  intros Hbase Hn. rewrite N.land_ones. symmetry.
  apply (N.mod_unique _ _ (base / 2 ^ k)); lia.
Qed.

Lemma encode_two_bytes (b0 b1 : byte) :
  (0xC0 <= Byte.to_N b0 < 0xE0)%N ->
  is_cont b1 = true ->
  (0x80 <= N.lor (N.shiftl (N.land (Byte.to_N b0) 0x1F) 6) (low6 b1))%N ->
  utf8_encode_char
    (N.lor (N.shiftl (N.land (Byte.to_N b0) 0x1F) 6) (low6 b1))
  = Some [b0; b1].
Proof.
  intros H0 H1 Hmin.
  pose proof (low6_lt b1) as Hl1. change (2 ^ 6)%N with 64%N in Hl1.
  change 0x1F%N with (N.ones 5) in *.
  rewrite (payload _ 192 5) in * by (try reflexivity; exact H0).
  rewrite lor_shiftl_add in * by apply low6_lt.
  change (2 ^ 6)%N with 64%N in *.
  set (h := (Byte.to_N b0 - 192)%N) in *. set (l := low6 b1) in *.
  assert (h < 32)%N as Hh by (unfold h; lia).
  unfold utf8_encode_char.
  replace (h * 64 + l <? 0x80)%N with false by (symmetry; apply N.ltb_ge; lia).
  replace (h * 64 + l <? 0x800)%N with true by (symmetry; apply N.ltb_lt; lia).
  f_equal. f_equal; [|f_equal].
  - apply (lead_byte b0 192 0 5); [reflexivity|exact H0|].
    rewrite N.shiftr_div_pow2. symmetry. change (2 ^ 6)%N with 64%N.
    apply (N.div_unique _ _ _ l); [exact Hl1|]. lia.
  - apply cont_byte_field; [exact H1|]. change (6 * 0)%N with 0%N.
    replace (h * 64 + l)%N with (h * (64 * 2 ^ 0) + l * 2 ^ 0 + 0)%N
      by (change (2 ^ 0)%N with 1%N; lia).
    apply field_of_sum; [exact Hl1|reflexivity].
Qed.

Lemma encode_three_bytes (b0 b1 b2 : byte) (c : N) :
  c = N.lor (N.shiftl (N.land (Byte.to_N b0) 0x0F) 12)
        (N.lor (N.shiftl (low6 b1) 6) (low6 b2)) ->
  (0xE0 <= Byte.to_N b0 < 0xF0)%N ->
  is_cont b1 = true -> is_cont b2 = true ->
  (0x800 <= c)%N ->
  ((0xD800 <=? c) && (c <=? 0xDFFF))%N = false ->
  utf8_encode_char c = Some [b0; b1; b2].
Proof.
  intros Hc H0 H1 H2 Hmin Hsur.
  pose proof (low6_lt b1) as Hl1. change (2 ^ 6)%N with 64%N in Hl1.
  pose proof (low6_lt b2) as Hl2. change (2 ^ 6)%N with 64%N in Hl2.
  change 0x0F%N with (N.ones 4) in Hc.
  rewrite (payload _ 224 4) in Hc by (try reflexivity; exact H0).
  rewrite (lor_shiftl_add (low6 b1) 6) in Hc by apply low6_lt.
  rewrite lor_shiftl_add in Hc by (change (2 ^ 6)%N with 64%N;
                                   change (2 ^ 12)%N with 4096%N; lia).
  change (2 ^ 6)%N with 64%N in Hc. change (2 ^ 12)%N with 4096%N in Hc.
  set (x := (Byte.to_N b0 - 224)%N) in *.
  set (y := low6 b1) in *. set (z := low6 b2) in *.
  assert (x < 16)%N as Hx by (unfold x; lia).
  unfold utf8_encode_char. rewrite Hsur.
  replace (c <? 0x80)%N with false by (symmetry; apply N.ltb_ge; lia).
  replace (c <? 0x800)%N with false by (symmetry; apply N.ltb_ge; lia).
  replace (c <? 0x10000)%N with true by (symmetry; apply N.ltb_lt; lia).
  f_equal. f_equal; [|f_equal; [|f_equal]].
  - apply (lead_byte b0 224 0 4); [reflexivity|exact H0|].
    rewrite N.shiftr_div_pow2. symmetry. change (2 ^ 12)%N with 4096%N.
    apply (N.div_unique _ _ _ (y * 64 + z)); lia.
  - apply cont_byte_field; [exact H1|]. change (6 * 1)%N with 6%N.
    replace c with (x * (64 * 2 ^ 6) + y * 2 ^ 6 + z)%N
      by (change (2 ^ 6)%N with 64%N; lia).
    apply field_of_sum; [exact Hl1|exact Hl2].
  - apply cont_byte_field; [exact H2|]. change (6 * 0)%N with 0%N.
    replace c with ((x * 64 + y) * (64 * 2 ^ 0) + z * 2 ^ 0 + 0)%N
      by (change (2 ^ 0)%N with 1%N; lia).
    apply field_of_sum; [exact Hl2|reflexivity].
Qed.

Lemma encode_four_bytes (b0 b1 b2 b3 : byte) (c : N) :
  c = N.lor (N.shiftl (N.land (Byte.to_N b0) 0x07) 18)
        (N.lor (N.shiftl (low6 b1) 12)
           (N.lor (N.shiftl (low6 b2) 6) (low6 b3))) ->
  (0xF0 <= Byte.to_N b0 < 0xF8)%N ->
  is_cont b1 = true -> is_cont b2 = true -> is_cont b3 = true ->
  (0x10000 <= c)%N -> (c <= 0x10FFFF)%N ->
  utf8_encode_char c = Some [b0; b1; b2; b3].
Proof.
  intros Hc H0 H1 H2 H3 Hmin Hmax.
  pose proof (low6_lt b1) as Hl1. change (2 ^ 6)%N with 64%N in Hl1.
  pose proof (low6_lt b2) as Hl2. change (2 ^ 6)%N with 64%N in Hl2.
  pose proof (low6_lt b3) as Hl3. change (2 ^ 6)%N with 64%N in Hl3.
  change 0x07%N with (N.ones 3) in Hc.
  rewrite (payload _ 240 3) in Hc by (try reflexivity; exact H0).
  rewrite (lor_shiftl_add (low6 b2) 6) in Hc by apply low6_lt.
  rewrite (lor_shiftl_add (low6 b1) 12) in Hc
    by (change (2 ^ 6)%N with 64%N; change (2 ^ 12)%N with 4096%N; lia).
  rewrite lor_shiftl_add in Hc
    by (change (2 ^ 6)%N with 64%N; change (2 ^ 12)%N with 4096%N;
        change (2 ^ 18)%N with 262144%N; lia).
  change (2 ^ 6)%N with 64%N in Hc. change (2 ^ 12)%N with 4096%N in Hc.
  change (2 ^ 18)%N with 262144%N in Hc.
  set (w := (Byte.to_N b0 - 240)%N) in *.
  set (x := low6 b1) in *. set (y := low6 b2) in *. set (z := low6 b3) in *.
  assert (w < 8)%N as Hw by (unfold w; lia).
  unfold utf8_encode_char.
  replace (c <? 0x80)%N with false by (symmetry; apply N.ltb_ge; lia).
  replace (c <? 0x800)%N with false by (symmetry; apply N.ltb_ge; lia).
  replace ((0xD800 <=? c) && (c <=? 0xDFFF))%N with false
    by (symmetry; apply andb_false_intro2, N.leb_gt; lia).
  replace (c <? 0x10000)%N with false by (symmetry; apply N.ltb_ge; lia).
  replace (c <=? 0x10FFFF)%N with true by (symmetry; apply N.leb_le; lia).
  f_equal. f_equal; [|f_equal; [|f_equal; [|f_equal]]].
  - apply (lead_byte b0 240 0 3); [reflexivity|exact H0|].
    rewrite N.shiftr_div_pow2. symmetry. change (2 ^ 18)%N with 262144%N.
    apply (N.div_unique _ _ _ (x * 4096 + y * 64 + z)); lia.
  - apply cont_byte_field; [exact H1|]. change (6 * 2)%N with 12%N.
    replace c with (w * (64 * 2 ^ 12) + x * 2 ^ 12 + (y * 64 + z))%N
      by (change (2 ^ 12)%N with 4096%N; lia).
    apply field_of_sum; [exact Hl1|change (2 ^ 12)%N with 4096%N; lia].
  - apply cont_byte_field; [exact H2|]. change (6 * 1)%N with 6%N.
    replace c with ((w * 64 + x) * (64 * 2 ^ 6) + y * 2 ^ 6 + z)%N
      by (change (2 ^ 6)%N with 64%N; lia).
    apply field_of_sum; [exact Hl2|exact Hl3].
  - apply cont_byte_field; [exact H3|]. change (6 * 0)%N with 0%N.
    replace c with (((w * 64 + x) * 64 + y) * (64 * 2 ^ 0) + z * 2 ^ 0 + 0)%N
      by (change (2 ^ 0)%N with 1%N; lia).
    apply field_of_sum; [exact Hl3|reflexivity].
Qed.

(** One step of the decoder, and the encoder on the character it yields. *)
Lemma utf8_decode_step (b0 : byte) (r0 : list byte) (s : list N) :
  utf8_decode (b0 :: r0) = Some s ->
  exists c b r t,
    b0 :: r0 = b ++ r /\ length r <= length r0 /\
    utf8_decode r = Some t /\ s = c :: t /\
    utf8_encode_char c = Some b.
Proof.
  cbn [utf8_decode]. cbv zeta.
  destruct (Byte.to_N b0 <? 0x80)%N eqn:H1.
  { intros H. apply fmap_Some in H as [t [Ht ->]].
    exists (Byte.to_N b0), [b0], r0, t.
    repeat split; try assumption; try lia.
    unfold utf8_encode_char. rewrite H1. now rewrite byte_of_to_N. }
  apply N.ltb_ge in H1.
  destruct (Byte.to_N b0 <? 0xC0)%N eqn:H2; [discriminate|].
  apply N.ltb_ge in H2.
  destruct (Byte.to_N b0 <? 0xE0)%N eqn:H3.
  { apply N.ltb_lt in H3.
    destruct r0 as [|b1 r1]; [discriminate|].
    destruct (is_cont b1 && _) eqn:Hc; [|discriminate].
    apply andb_prop in Hc as [Hc1 Hmin]. apply N.leb_le in Hmin.
    intros H. apply fmap_Some in H as [t [Ht ->]].
    eexists _, [b0; b1], r1, t.
    split; [reflexivity|]. split; [cbn; lia|]. split; [exact Ht|].
    split; [reflexivity|]. now apply encode_two_bytes. }
  apply N.ltb_ge in H3.
  destruct (Byte.to_N b0 <? 0xF0)%N eqn:H4.
  { apply N.ltb_lt in H4.
    destruct r0 as [|b1 [|b2 r2]]; try discriminate.
    match goal with |- context [if ?g then _ else _] => destruct g eqn:Hc end;
      [|discriminate].
    apply andb_prop in Hc as [Hc Hsur]. apply negb_true_iff in Hsur.
    apply andb_prop in Hc as [Hc Hmin]. apply N.leb_le in Hmin.
    apply andb_prop in Hc as [Hc1 Hc2].
    intros H. apply fmap_Some in H as [t [Ht ->]].
    eexists _, [b0; b1; b2], r2, t.
    split; [reflexivity|]. split; [cbn; lia|]. split; [exact Ht|].
    split; [reflexivity|]. now apply (encode_three_bytes b0 b1 b2). }
  apply N.ltb_ge in H4.
  destruct (Byte.to_N b0 <? 0xF8)%N eqn:H5; [|discriminate].
  apply N.ltb_lt in H5.
  destruct r0 as [|b1 [|b2 [|b3 r3]]]; try discriminate.
  match goal with |- context [if ?g then _ else _] => destruct g eqn:Hc end;
    [|discriminate].
  apply andb_prop in Hc as [Hc Hmax]. apply N.leb_le in Hmax.
  apply andb_prop in Hc as [Hc Hmin]. apply N.leb_le in Hmin.
  apply andb_prop in Hc as [Hc Hc3]. apply andb_prop in Hc as [Hc1 Hc2].
  intros H. apply fmap_Some in H as [t [Ht ->]].
  eexists _, [b0; b1; b2; b3], r3, t.
  split; [reflexivity|]. split; [cbn; lia|]. split; [exact Ht|].
  split; [reflexivity|]. now apply (encode_four_bytes b0 b1 b2 b3).
Qed.

Lemma utf8_decode_encode_bounded (n : nat) :
  forall (bs : list byte) (s : list N),
    length bs <= n ->
    utf8_decode bs = Some s -> utf8_encode s = Some bs.
Proof.
  induction n as [|n IH]; intros bs s Hn H.
  - destruct bs; [|cbn in Hn; lia]. now injection H as <-.
  - destruct bs as [|b0 r0]; [now injection H as <-|].
    apply utf8_decode_step in H as [c [b [r [t [Hbs [Hr [Ht [-> Hc]]]]]]]].
    cbn [utf8_encode]. rewrite Hc, (IH r t); [now rewrite Hbs| |exact Ht].
    cbn in Hn. lia.
Qed.

(** X20.  What [get_input] decodes, [push_output] encodes back to the very
    bytes: the strict decoder accepts one spelling only of each text. *)
Theorem utf8_decode_then_encode (bs : list byte) (s : list N) :
  utf8_decode bs = Some s -> utf8_encode s = Some bs.
Proof. apply (utf8_decode_encode_bounded (length bs)). reflexivity. Qed.

Lemma utf8_decode_then_encode_witness :
  utf8_encode [0x63%N; 0xE9%N; 0x20AC%N; 0x1F600%N]
  = Some [x63; xc3; xa9; xe2; x82; xac; xf0; x9f; x98; x80].
Proof.
  apply (utf8_decode_then_encode
           [x63; xc3; xa9; xe2; x82; xac; xf0; x9f; x98; x80]).
  reflexivity.
Defined.

(* ===================================================================== *)
(** ** A whole turn, from the bytes received to the bytes sent *)
(* ===================================================================== *)

Lemma decoded_chunks_encodable (chunks : list (list byte)) (texts : list (list N)) :
  Forall2 (fun b t => utf8_decode b = Some t) chunks texts ->
  forallb encodable (concat texts) = true.
Proof.
  induction 1 as [|b t chunks texts Hbt _ IH]; [reflexivity|].
  cbn [concat]. rewrite forallb_app, IH.
  now rewrite (utf8_decode_encodable (length b) b t).
Qed.

Lemma decoded_chunks_encode (chunks : list (list byte)) (texts : list (list N)) :
  Forall2 (fun b t => utf8_decode b = Some t) chunks texts ->
  utf8_encode (concat texts) = Some (concat chunks).
Proof.
  induction 1 as [|b t chunks texts Hbt _ IH]; [reflexivity|].
  cbn [concat]. rewrite utf8_encode_app, IH.
  now rewrite (utf8_decode_encode_bounded (length b) b t).
Qed.

Lemma bind_assoc {A B C} (m : M A) (k : A -> M B) (j : B -> M C) (s : Server) :
  bind m (fun x => bind (k x) j) s = bind (bind m k) j s.
Proof. unfold bind. now destruct (m s). Qed.

(** [route] does not look at the connection. *)
Lemma dispatch_connection (command arguments : list N)
    (v : option Connection) (s : Server) :
  exists s',
    dispatch command arguments s = Returns tt s' /\
    dispatch command arguments (set_client_connection v s) =
      Returns tt (set_client_connection v s').
Proof.
  unfold dispatch. destruct (routing_dict !! command) as [handler|] eqn:Hc.
  - apply routing_dict_Some in Hc as [[_ ->]|[[_ ->]|[_ ->]]].
    + eexists. split; reflexivity.
    + unfold move, bind, self. cbn [room set_client_connection].
      destruct (valid_moves !! (room s, arguments)) as [r'|] eqn:Hm.
      * destruct (valid_moves_described _ _ _ Hm) as [d Hd].
        unfold assign, room_description. cbn [room set_room].
        rewrite Hd. eexists. split; reflexivity.
      * eexists. split; reflexivity.
    + eexists. split; reflexivity.
  - eexists. split; reflexivity.
Qed.

Lemma handle_received_connection (line : list N)
    (v : option Connection) (s : Server) :
  exists s',
    handle_received line s = Returns tt s' /\
    handle_received line (set_client_connection v s) =
      Returns tt (set_client_connection v s').
Proof.
  unfold handle_received, bind, assign, route, bind, self.
  cbn [input_buffer set_input_buffer set_client_connection].
  pose proof (split_not_nil sp (strip line)).
  destruct (split sp (strip line)) as [|w ws]; [easy|].
  cbn [pop0 ret fst snd].
  apply (dispatch_connection w (join [sp] ws) v (set_input_buffer (strip line) s)).
Qed.

(** The first third of a turn: [get_input] on chunks that decode, the last
    one with the newline. *)
Lemma turn_after_input
    (s : Server) (c : Connection) (pre : list (list byte))
    (texts : list (list N)) (last_chunk : list byte) (last_text : list N)
    (rest : list (list byte)) :
  client_connection s = Some c ->
  pending c = pre ++ last_chunk :: rest ->
  Forall2 (fun b t => utf8_decode b = Some t) pre texts ->
  contains nl (concat texts) = false ->
  utf8_decode last_chunk = Some last_text ->
  contains nl last_text = true ->
  (get_input ;; route ;; push_output) s =
  (route ;; push_output)
    (set_input_buffer (strip (concat texts ++ last_text))
       (set_client_connection
          (Some (mkConnection rest
                   (trace c ++ map Recv (pre ++ [last_chunk])))) s)).
Proof.
  intros Hc Hp Hdec Hno Hlast Hnl.
  assert (get_input s =
          Returns tt
            (set_input_buffer (strip (concat texts ++ last_text))
               (set_client_connection
                  (Some (mkConnection rest
                           (trace c ++ map Recv (pre ++ [last_chunk])))) s)))
    as Hget.
  { unfold get_input, bind, self.
    rewrite (get_input_loop_chunks pre texts _ [] s c last_chunk last_text rest);
      try assumption; [reflexivity|].
    unfold pending_count. rewrite Hc, Hp, length_app. cbn. lia. }
  unfold bind at 1. now rewrite Hget.
Qed.

(** X21.  A turn of the loop of [serve] as a whole.  When the chunks decode
    and the newline comes with the last of them, the turn returns: the
    client gets one frame, [OK! ], the bytes of the reply and a newline,
    where the reply is what [route] makes of the text received, stripped;
    the chunks after that one are left for the next turn. *)
Theorem turn_replies_once
    (s : Server) (c : Connection) (pre : list (list byte))
    (texts : list (list N)) (last_chunk : list byte) (last_text : list N)
    (rest : list (list byte)) :
  client_connection s = Some c ->
  pending c = pre ++ last_chunk :: rest ->
  Forall2 (fun b t => utf8_decode b = Some t) pre texts ->
  contains nl (concat texts) = false ->
  utf8_decode last_chunk = Some last_text ->
  contains nl last_text = true ->
  exists s2 b,
    handle_received (concat texts ++ last_text) s = Returns tt s2 /\
    utf8_encode (output_buffer s2) = Some b /\
    (get_input ;; route ;; push_output) s =
      Returns tt
        (set_client_connection
           (Some (mkConnection rest
                    (trace c ++ map Recv (pre ++ [last_chunk])
                     ++ [Send (blit "OK! " ++ b ++ [x0a])]))) s2).
Proof.
  intros Hc Hp Hdec Hno Hlast Hnl.
  set (received := concat texts ++ last_text).
  set (c1 := mkConnection rest (trace c ++ map Recv (pre ++ [last_chunk]))).
  assert (forallb encodable (strip received) = true) as Henc.
  { apply strip_forallb. unfold received.
    rewrite forallb_app, (decoded_chunks_encodable pre texts Hdec).
    now apply (utf8_decode_encodable (length last_chunk) last_chunk). }
  destruct (route_for_serve (set_input_buffer (strip received) s) Henc)
    as [s2 [Hr [_ [_ [Henc2 _]]]]].
  destruct (utf8_encode_encodable _ Henc2) as [b Hb].
  destruct (handle_received_connection received (Some c1) s)
    as [s2' [H2 H2']].
  assert (s2' = s2) as -> by (unfold handle_received, bind, assign in H2;
                              congruence).
  exists s2, b. split; [exact H2|]. split; [exact Hb|].
  rewrite (turn_after_input s c pre texts last_chunk last_text rest
             Hc Hp Hdec Hno Hlast Hnl).
  fold received. fold c1. unfold bind at 1.
  unfold handle_received, bind, assign in H2'. rewrite H2'.
  rewrite (push_output_sends _ c1 b); [|reflexivity|exact Hb].
  cbn [c1 pending trace]. rewrite <- app_assoc. reflexivity.
Qed.

Lemma turn_replies_once_witness :
  let c := mkConnection [blit "move no"; blit "rth" ++ [x0a];
                         blit "quit" ++ [x0a]] [Send greeting] in
  let s := set_client_connection (Some c) (__init__ 50000) in
  exists s2 b,
    handle_received (concat [lit "move no"] ++ (lit "rth" ++ [nl])) s
      = Returns tt s2 /\
    utf8_encode (output_buffer s2) = Some b /\
    (get_input ;; route ;; push_output) s =
      Returns tt
        (set_client_connection
           (Some (mkConnection [blit "quit" ++ [x0a]]
                    (trace c ++ map Recv ([blit "move no"]
                                          ++ [blit "rth" ++ [x0a]])
                     ++ [Send (blit "OK! " ++ b ++ [x0a])]))) s2).
Proof.
  cbv zeta.
  apply (turn_replies_once
           (set_client_connection
              (Some (mkConnection [blit "move no"; blit "rth" ++ [x0a];
                                   blit "quit" ++ [x0a]] [Send greeting]))
              (__init__ 50000))
           (mkConnection [blit "move no"; blit "rth" ++ [x0a];
                          blit "quit" ++ [x0a]] [Send greeting])
           [blit "move no"] [lit "move no"]
           (blit "rth" ++ [x0a]) (lit "rth" ++ [nl])
           [blit "quit" ++ [x0a]]);
    try reflexivity.
  repeat constructor.
Defined.

(** X22.  [say] echoes byte for byte.  When the text received is [say], a
    space, an argument without whitespace at its end, and the newline, the
    bytes that the client sent between [say ] and the newline are the bytes
    that it gets back between the quotes, whatever characters they are and
    however [recv] cut them; room and [done] are as they were. *)
Theorem say_echoes_bytes
    (s : Server) (c : Connection) (pre : list (list byte))
    (texts : list (list N)) (last_chunk : list byte) (last_text : list N)
    (rest : list (list byte)) (argument : list N) :
  client_connection s = Some c ->
  pending c = pre ++ last_chunk :: rest ->
  Forall2 (fun b t => utf8_decode b = Some t) pre texts ->
  contains nl (concat texts) = false ->
  utf8_decode last_chunk = Some last_text ->
  contains nl last_text = true ->
  concat texts ++ last_text = lit "say " ++ argument ++ [nl] ->
  rstrip argument = argument ->
  exists sent s3,
    concat (pre ++ [last_chunk]) = blit "say " ++ sent ++ [x0a] /\
    (get_input ;; route ;; push_output) s = Returns tt s3 /\
    trace_of s3 =
      trace c ++ map Recv (pre ++ [last_chunk])
      ++ [Send (blit "OK! You say, '" ++ sent ++ blit "'" ++ [x0a])] /\
    pending_of s3 = rest /\
    room s3 = room s /\ done s3 = done s.
Proof.
  intros Hc Hp Hdec Hno Hlast Hnl Htext Harg.
  set (c1 := mkConnection rest (trace c ++ map Recv (pre ++ [last_chunk]))).
  (* the bytes of the argument *)
  assert (utf8_encode (concat texts ++ last_text)
          = Some (concat (pre ++ [last_chunk]))) as Hbytes.
  { rewrite utf8_encode_app, (decoded_chunks_encode pre texts Hdec).
    rewrite (utf8_decode_encode_bounded _ last_chunk last_text (le_n _) Hlast).
    rewrite concat_app. cbn [concat]. now rewrite app_nil_r. }
  rewrite Htext, !utf8_encode_app in Hbytes.
  change (utf8_encode (lit "say ")) with (Some (blit "say ")) in Hbytes.
  change (utf8_encode [nl]) with (Some [x0a]) in Hbytes.
  destruct (utf8_encode argument) as [sent|] eqn:Hsent; [|discriminate].
  injection Hbytes as Hbytes.
  (* the line that [route] reads *)
  assert (route (set_input_buffer (strip (concat texts ++ last_text))
                   (set_client_connection (Some c1) s))
          = say argument
              (set_input_buffer (strip (concat texts ++ last_text))
                 (set_client_connection (Some c1) s))) as Hsay.
  { rewrite Htext.
    replace (lit "say " ++ argument ++ [nl])
      with ((lit "say " ++ argument) ++ [nl]) by now rewrite <- app_assoc.
    rewrite strip_app_space by reflexivity.
    change (lit "say " ++ argument) with (lit "say" ++ sp :: argument).
    rewrite strip_word_space by easy. rewrite Harg.
    destruct argument as [|a0 argument'].
    - rewrite (route_bare _ (lit "say")); reflexivity.
    - rewrite (route_word_space _ (lit "say") (a0 :: argument'));
        reflexivity. }
  exists sent. eexists.
  split; [now rewrite <- Hbytes|].
  rewrite (turn_after_input s c pre texts last_chunk last_text rest
             Hc Hp Hdec Hno Hlast Hnl).
  fold c1. unfold bind at 1. rewrite Hsay. unfold say, assign.
  rewrite (push_output_sends _ c1
             (blit "You say, '" ++ sent ++ blit "'"));
    [|reflexivity|].
  2:{ cbn [output_buffer set_output_buffer].
      now rewrite !utf8_encode_app, Hsent. }
  split; [reflexivity|].
  split; [unfold trace_of; cbn [client_connection set_client_connection
                                 c1 trace]; rewrite <- !app_assoc;
          reflexivity|].
  split; [reflexivity|]. split; reflexivity.
Qed.

Lemma say_echoes_bytes_witness :
  let c := mkConnection [blit "say caf" ++ [xc3; xa9]; blit " ol" ++ [xc3; xa9; x0a]]
             [Send greeting] in
  let s := set_client_connection (Some c) (__init__ 50000) in
  exists sent s3,
    concat ([blit "say caf" ++ [xc3; xa9]] ++ [blit " ol" ++ [xc3; xa9; x0a]])
      = blit "say " ++ sent ++ [x0a] /\
    (get_input ;; route ;; push_output) s = Returns tt s3 /\
    trace_of s3 =
      trace c ++ map Recv ([blit "say caf" ++ [xc3; xa9]]
                           ++ [blit " ol" ++ [xc3; xa9; x0a]])
      ++ [Send (blit "OK! You say, '" ++ sent ++ blit "'" ++ [x0a])] /\
    pending_of s3 = [] /\
    room s3 = room s /\ done s3 = done s.
Proof.
  cbv zeta.
  apply (say_echoes_bytes
           (set_client_connection
              (Some (mkConnection [blit "say caf" ++ [xc3; xa9];
                                   blit " ol" ++ [xc3; xa9; x0a]]
                       [Send greeting]))
              (__init__ 50000))
           (mkConnection [blit "say caf" ++ [xc3; xa9];
                          blit " ol" ++ [xc3; xa9; x0a]] [Send greeting])
           [blit "say caf" ++ [xc3; xa9]] [lit "say caf" ++ [0xE9%N]]
           (blit " ol" ++ [xc3; xa9; x0a]) (lit " ol" ++ [0xE9%N; nl])
           [] (lit "caf" ++ [0xE9%N] ++ lit " ol" ++ [0xE9%N]));
    try reflexivity.
  repeat constructor.
Defined.

(* ===================================================================== *)
(** ** Sessions that go well *)
(* ===================================================================== *)

(** The loop of [serve], one turn at a time. *)
Lemma serve_loop_turn (fuel : nat) (s : Server) :
  done s = false ->
  serve_loop (S fuel) s =
  match (get_input ;; route ;; push_output) s with
  | Returns _ s3 => serve_loop fuel s3
  | Raises e s' => Raises e s'
  | Hangs s' => Hangs s'
  | OutOfFuel s' => OutOfFuel s'
  end.
Proof.
  intros Hd. rewrite serve_loop_S, Hd. unfold bind.
  destruct (get_input s) as [[] s1| | |]; try reflexivity.
  destruct (route s1) as [[] s2| | |]; reflexivity.
Qed.

Lemma get_input_loop_decodes (fuel : nat) :
  forall (received : list N) (s : Server) (e : exn) (s' : Server),
    is_Some (client_connection s) ->
    Forall (fun b => is_Some (utf8_decode b)) (pending_of s) ->
    get_input_loop fuel received s <> Raises e s'.
Proof.
  induction fuel as [|fuel IH]; intros received s e s' [c Hc] Hall;
    cbn [get_input_loop]; destruct (contains nl received); try discriminate.
  unfold bind at 1. unfold recv, bind, self, or_raise.
  unfold pending_of in Hall. rewrite Hc in *. cbn [ret].
  destruct (pending c) as [|b rest]; [discriminate|].
  apply Forall_cons in Hall as [[t Ht] Hrest].
  cbn [assign ret]. rewrite Ht. cbn [ret].
  apply IH; [eexists; reflexivity|exact Hrest].
Qed.

Lemma serve_loop_decodes (fuel : nat) :
  forall (s : Server) (c : Connection) (e : exn) (s' : Server),
    client_connection s = Some c ->
    Forall (fun b => is_Some (utf8_decode b)) (pending c) ->
    serve_loop fuel s <> Raises e s'.
Proof.
  induction fuel as [|fuel IH]; intros s c e s' Hc Hall.
  { cbn [serve_loop]. unfold bind, self. destruct (done s); discriminate. }
  rewrite serve_loop_S. destruct (done s); [discriminate|].
  pose proof (get_input_for_serve s c Hc) as Hg.
  assert (forall e1 s1, get_input s <> Raises e1 s1) as Hnr.
  { intros e1 s1. unfold get_input, bind, self.
    pose proof (get_input_loop_decodes (S (pending_count s)) [] s) as Hl.
    destruct (get_input_loop (S (pending_count s)) [] s) as [r sa|ea sa|sa|sa];
      try discriminate.
    exfalso. apply (Hl ea sa); [eauto| |reflexivity].
    unfold pending_of. now rewrite Hc. }
  destruct (get_input s) as [[] s1|e1 s1|s1|s1]; try discriminate.
  2: now destruct (Hnr e1 s1).
  destruct Hg as [Henc [_ [_ [c1 [taken [Hc1 [_ [Hpen _]]]]]]]].
  destruct (route_for_serve s1 Henc) as [s2 [-> [Hc2 [_ [Henc2 _]]]]].
  rewrite Hc1 in Hc2.
  destruct (utf8_encode_encodable _ Henc2) as [b0 Hb0].
  rewrite (push_output_sends s2 c1 b0 Hc2 Hb0).
  apply (IH _ (mkConnection (pending c1) (trace c1 ++ [Send (blit "OK! " ++ b0 ++ [x0a])])));
    [reflexivity|].
  cbn [pending]. rewrite Hpen in Hall. now apply Forall_app in Hall as [_ ?].
Qed.

(** Over a connection that does not fail, a session whose chunks all
    decode raises nothing. *)
Lemma serve_of_decodable_chunks
    (incoming : list (list byte)) (port : Z) (e : exn) (s' : Server) :
  Forall (fun b => is_Some (utf8_decode b)) incoming ->
  serve incoming (__init__ port) <> Raises e s'.
Proof.
  intros Hall.
  pose proof (serve_prelude port incoming) as Hpre.
  set (s1 := set_client_connection _ _) in Hpre.
  rewrite (serve_after_prelude _ _ _ Hpre). unfold bind at 1.
  pose proof (serve_loop_decodes (S (length incoming)) s1
                (mkConnection incoming [Send greeting])) as Hl.
  destruct (serve_loop_shape (S (length incoming)) s1
              (mkConnection incoming [Send greeting]) eq_refl)
    as [body [tail [_ [_ Hends]]]]; [cbn; lia|].
  destruct (serve_loop (S (length incoming)) s1) as [u s2|e2 s2|s2|s2];
    try discriminate.
  - destruct Hends as [_ [_ [Hs [[c2 Hc2] _]]]].
    change (socket s1) with (Some (Listening ("127.0.0.1"%string, port))) in Hs.
    unfold close_connection, close_socket, bind, self, or_raise, assign, ret.
    rewrite Hc2. cbn [socket set_client_connection]. rewrite Hs. discriminate.
  - exfalso. now apply (Hl e2 s2 eq_refl Hall).
Qed.

Lemma decodable_or_not (chunks : list (list byte)) :
  Forall (fun b => is_Some (utf8_decode b)) chunks \/
  Exists (fun b => utf8_decode b = None) chunks.
Proof.
  induction chunks as [|b chunks [IH|IH]].
  - left. constructor.
  - destruct (utf8_decode b) as [t|] eqn:Hb.
    + left. constructor; [now exists t|exact IH].
    + right. now apply Exists_cons_hd.
  - right. now apply Exists_cons_tl.
Qed.

(** X23.  [UnicodeDecodeError] comes from the bytes received and from
    nothing else: when [serve] raises it, one of the chunks that [recv] had
    for it is no UTF-8 on its own. *)
Theorem serve_decode_error_needs_bad_chunk
    (incoming : list (list byte)) (port : Z) (s' : Server) :
  serve incoming (__init__ port) = Raises UnicodeDecodeError s' ->
  Exists (fun b => utf8_decode b = None) incoming.
Proof.
  intros H. destruct (decodable_or_not incoming) as [Hall|Hbad]; [|exact Hbad].
  now destruct (serve_of_decodable_chunks incoming port UnicodeDecodeError s'
                  Hall).
Qed.

Lemma serve_decode_error_needs_bad_chunk_witness :
  Exists (fun b => utf8_decode b = None)
    [blit "say caf" ++ [xc3]; [xa9; x0a]].
Proof.
  apply (serve_decode_error_needs_bad_chunk
           [blit "say caf" ++ [xc3]; [xa9; x0a]] 50000
           (final (serve [blit "say caf" ++ [xc3]; [xa9; x0a]]
                     (__init__ 50000)))).
  vm_compute. reflexivity.
Defined.

(** [route] on a line whose command is [quit]. *)
Lemma route_quit_sets_done (s : Server) :
  fst (parse (input_buffer s)) = lit "quit" ->
  strip (input_buffer s) = input_buffer s ->
  exists s', route s = Returns tt s' /\ done s' = true /\
             client_connection s' = client_connection s /\
             output_buffer s' = lit "Goodbye!".
Proof.
  unfold parse, route, bind, self. intros Hq Hs. rewrite Hs in Hq.
  pose proof (split_not_nil sp (input_buffer s)).
  destruct (split sp (input_buffer s)) as [|w ws]; [easy|].
  cbn [fst] in Hq. subst w. cbn [pop0 ret fst snd].
  eexists. split; [reflexivity|]. repeat split.
Qed.

Lemma strip_strip (s : list N) : strip (strip s) = strip s.
Proof.
  assert (forall t, (forall c, head t = Some c -> isspace c = false) ->
                    lstrip t = t) as Hl.
  { intros [|c t] H; [reflexivity|]. cbn [lstrip]. now rewrite (H c). }
  assert (forall t, (forall c, last t = Some c -> isspace c = false) ->
                    rstrip t = t) as Hr.
  { induction t as [|c t IH]; intros H; [reflexivity|].
    rewrite rstrip_cons. destruct t as [|c' t'].
    - cbn [rstrip]. now rewrite (H c).
    - rewrite IH; [reflexivity|]. intros x Hx. apply H. exact Hx. }
  unfold strip at 1.
  rewrite Hl by (intros c Hc; apply (strip_ends s); now left).
  apply Hr. intros c Hc. apply (strip_ends s). now right.
Qed.

(** The loop of [serve] for a client that sends a newline with each chunk
    and, at some point, [quit]. *)
Lemma serve_loop_returns (texts : list (list N)) :
  forall (incoming : list (list byte)) (fuel : nat) (s : Server) (c : Connection),
    client_connection s = Some c ->
    pending c = incoming ->
    Forall2 (fun b t => utf8_decode b = Some t /\ contains nl t = true)
      incoming texts ->
    Exists (fun t => fst (parse t) = lit "quit") texts ->
    length incoming < fuel ->
    exists s', serve_loop fuel s = Returns tt s'.
Proof.
  induction texts as [|t texts IH];
    intros incoming fuel s c Hc Hp Hall Hq Hfuel; [now apply Exists_nil in Hq|].
  apply Forall2_cons_inv_r in Hall as [b [rest [[Hb Hnl] [Hall ->]]]].
  destruct fuel as [|fuel]; [lia|].
  destruct (done s) eqn:Hd; [exists s; now apply serve_loop_done|].
  rewrite (serve_loop_turn fuel s Hd).
  rewrite (turn_after_input s c [] [] b t rest Hc Hp
             (List.Forall2_nil _) eq_refl Hb Hnl).
  cbn [concat app map].
  set (c1 := mkConnection rest (trace c ++ [Recv b])).
  set (s1 := set_input_buffer (strip t) (set_client_connection (Some c1) s)).
  assert (forallb encodable (input_buffer s1) = true) as Henc.
  { apply strip_forallb. now apply (utf8_decode_encodable (length b) b t). }
  destruct (route_for_serve s1 Henc) as [s2 [Hr [Hc2 [_ [Henc2 _]]]]].
  destruct (utf8_encode_encodable _ Henc2) as [b0 Hb0].
  unfold bind at 1. rewrite Hr.
  rewrite (push_output_sends s2 c1 b0 Hc2 Hb0).
  set (s3 := set_client_connection _ s2).
  apply Exists_cons in Hq as [Hq|Hq].
  - destruct (route_quit_sets_done s1) as [s2' [Hr' [Hd' _]]].
    { unfold parse in *. cbn [s1 input_buffer set_input_buffer].
      now rewrite strip_strip. }
    { apply strip_strip. }
    rewrite Hr in Hr'. injection Hr' as <-.
    exists s3. now apply serve_loop_done.
  - apply (IH rest fuel s3 (mkConnection (pending c1)
                              (trace c1 ++ [Send (blit "OK! " ++ b0 ++ [x0a])])));
      try reflexivity; try assumption. cbn in Hfuel. lia.
Qed.

(** X24.  A client that quits is served to the end: when each chunk decodes
    and brings a newline, and the command of one of them is [quit], [serve]
    returns. *)
Theorem serve_returns_when_client_quits
    (incoming : list (list byte)) (texts : list (list N)) (port : Z) :
  Forall2 (fun b t => utf8_decode b = Some t /\ contains nl t = true)
    incoming texts ->
  Exists (fun t => fst (parse t) = lit "quit") texts ->
  exists s', serve incoming (__init__ port) = Returns tt s'.
Proof.
  intros Hall Hq.
  pose proof (serve_prelude port incoming) as Hpre.
  set (s1 := set_client_connection _ _) in Hpre.
  rewrite (serve_after_prelude _ _ _ Hpre). unfold bind at 1.
  destruct (serve_loop_returns texts incoming (S (length incoming)) s1
              (mkConnection incoming [Send greeting]) eq_refl eq_refl Hall Hq)
    as [s2 Hl]; [lia|].
  destruct (serve_loop_shape (S (length incoming)) s1
              (mkConnection incoming [Send greeting]) eq_refl)
    as [body [tail [_ [_ Hends]]]]; [cbn; lia|].
  rewrite Hl in *. destruct Hends as [_ [_ [Hs [[c2 Hc2] _]]]].
  change (socket s1) with (Some (Listening ("127.0.0.1"%string, port))) in Hs.
  unfold close_connection, close_socket, bind, self, or_raise, assign, ret.
  rewrite Hc2. cbn [socket set_client_connection]. rewrite Hs. eauto.
Qed.

Lemma serve_returns_when_client_quits_witness :
  exists s',
    serve [blit "move west" ++ [x0a]; blit " quit  now" ++ [x0a]] (__init__ 50000)
    = Returns tt s'.
Proof.
  apply (serve_returns_when_client_quits
           [blit "move west" ++ [x0a]; blit " quit  now" ++ [x0a]]
           [lit "move west" ++ [nl]; lit " quit  now" ++ [nl]] 50000).
  - repeat constructor.
  - apply Exists_cons_tl, Exists_cons_hd. reflexivity.
Defined.
